(** * CppRL: the DQN training loop and the convolutional observation encoder

    A shallow embedding of [src/torchrl_utils/model/conv_encoder.py] and of the
    main loop of [src/rl/dqn/dqn_train.py].

    Tensors are represented by their shapes: the properties below are about
    dimensions, call order and counters, never about the numbers a network
    computes.  Python integers are [Z] (or [nat] where the code counts), and
    the scalars of the exploration schedule and of the n-step return are exact
    rationals ([Qc]). *)

From Stdlib Require Import ZArith QArith Qcanon Lia Lqa.
From Stdlib Require Import Ascii Decimal DecimalString DecimalZ DecimalPos.
From stdpp Require Import base tactics option list numbers strings sorting.
From stdpp Require Import gmap.

(** ** Tensor shapes and the torch operations the encoder uses *)

Module Torch.

Definition shape := list nat.

(** [Tensor.size(d)] *)
Definition size (s : shape) (d : nat) : option nat := s !! d.

(** [Tensor.ndim] *)
Definition ndim (s : shape) : nat := length s.

(** [Tensor.unsqueeze(0)] *)
Definition unsqueeze0 (s : shape) : shape := 1 :: s.

(** The last dimension of a tensor and the dimensions before it. *)
Fixpoint split_last (s : shape) : option (shape * nat) :=
  match s with
  | [] => None
  | d :: s' =>
      match split_last s' with
      | None => Some ([], d)
      | Some (lead, z) => Some (d :: lead, z)
      end
  end.

(** [SquashDims()] (ndims_in = 3): [flatten(-3, -1)]. *)
Definition squash_dims (s : shape) : option shape :=
  match reverse s with
  | w :: h :: c :: lead => Some (reverse lead ++ [c * h * w])
  | _ => None
  end.

(** [nn.Linear(in_features, out_features)]: the last dimension of the input
    has to be [in_features]. *)
Definition linear (in_features out_features : nat) (s : shape)
  : option shape :=
  match split_last s with
  | Some (lead, d) =>
      if decide (d = in_features) then Some (lead ++ [out_features])
      else None
  | None => None
  end.

(** The tensors [torch.concatenate] leaves out: a 1-d tensor without
    elements, of shape [0], goes with tensors of any shape. *)
Definition cat_should_skip (s : shape) : bool := bool_decide (s = [0]).

(** [torch.concatenate([a, b], dim=-1)].  A tensor without dimensions cannot
    be concatenated.  A tensor of shape [0] is skipped: the result is the
    other tensor (of shape [0] when both are skipped).  Two tensors that
    are not skipped have to agree in all dimensions but the last. *)
Definition concatenate_last (a b : shape) : option shape :=
  match split_last a, split_last b with
  | Some (la, da), Some (lb, db) =>
      if cat_should_skip a then Some b
      else if cat_should_skip b then Some a
      else if decide (la = lb) then Some (la ++ [da + db]) else None
  | _, _ => None
  end.

End Torch.

(** ** [ConvEncoder] (src/torchrl_utils/model/conv_encoder.py) *)

Module ConvEncoder.
Import Torch.

(** The constructor arguments of one [_ConvNetBlock]. *)
Record Block := mkBlock {
  in_channels : nat;
  out_channels : nat;
  kernel_size : nat;
  stride : nat
}.

Record t := mk {
  cnn_layers : list Block;        (* self.cnn_encoder, before the activation and SquashDims *)
  post_in_features : nat;         (* self.post_encoder[0].in_features *)
  post_out_features : nat         (* self.post_encoder[0].out_features *)
}.

Section WithBlock.

(** [_ConvNetBlock] lives in [torchrl_utils.model.impala_net], which is not
    among the sources.  Its effect on the (channels, height, width) extent
    of one sample is a parameter; [None] is a shape error.  A block is a
    stack of 2d convolution and pooling layers, so it takes an unbatched
    (C,H,W) or a batched (N,C,H,W) tensor and treats every sample alike. *)
Variable conv_net_block : Block -> nat * nat * nat -> option (nat * nat * nat).

Definition apply_block (b : Block) (s : shape) : option shape :=
  match s with
  | [c; h; w] =>
      '(c', h', w') ← conv_net_block b (c, h, w); Some [c'; h'; w']
  | [n; c; h; w] =>
      '(c', h', w') ← conv_net_block b (c, h, w); Some [n; c'; h'; w']
  | _ => None
  end.

(** [torch.nn.Sequential] over the layers: the blocks in order, then the
    activation (which keeps the shape), then [SquashDims()]. *)
Fixpoint apply_blocks (layers : list Block) (s : shape) : option shape :=
  match layers with
  | [] => Some s
  | b :: rest => s' ← apply_block b s; apply_blocks rest s'
  end.

Definition cnn_encoder (layers : list Block) (s : shape) : option shape :=
  s' ← apply_blocks layers s; squash_dims s'.

(** The loop [for i in range(len(cnn_channels))] of [__init__], started at
    index [i] with the running [in_ch]. *)
Fixpoint build_layers (kernel_sizes strides : list nat)
    (in_ch i : nat) (cnn_channels : list nat) : option (list Block) :=
  match cnn_channels with
  | [] => Some []
  | out_ch :: rest =>
      k ← kernel_sizes !! i;
      st ← strides !! i;
      layers ← build_layers kernel_sizes strides out_ch (S i) rest;
      Some (mkBlock in_ch out_ch k st :: layers)
  end.

(** [ConvEncoder.__init__].  The result carries, next to the module, the
    list of inputs [self.cnn_encoder] was called on while constructing. *)
Definition init (raster_shape cnn_channels kernel_sizes strides : list nat)
    (vec_dim vec_out : nat) : option (t * list shape) :=
  in_ch ← raster_shape !! 0;
  layers ← build_layers kernel_sizes strides in_ch 0 cnn_channels;
  let dummy_inputs := raster_shape in
  let dummy_inputs :=
    if decide (ndim dummy_inputs < 4) then unsqueeze0 dummy_inputs
    else dummy_inputs in
  cnn_output ← cnn_encoder layers dummy_inputs;
  features ← size cnn_output 1;
  Some (mk layers (vec_dim + features) vec_out, [dummy_inputs]).

Definition post_encoder (enc : t) (s : shape) : option shape :=
  linear (post_in_features enc) (post_out_features enc) s.

(** [ConvEncoder.forward(observation, vector=None)] *)
Definition forward (enc : t) (observation : shape) (vector : option shape)
  : option shape :=
  embed ← cnn_encoder (cnn_layers enc) observation;
  embed ← match vector with
          | Some v => concatenate_last embed v
          | None => Some embed
          end;
  post_encoder enc embed.

End WithBlock.

(** A concrete block for the examples: one valid convolution
    (no padding), which needs a kernel that fits and matching channels. *)
Definition plain_conv (b : Block) (chw : nat * nat * nat)
  : option (nat * nat * nat) :=
  let '(c, h, w) := chw in
  if decide (c = in_channels b ∧ 0 < stride b ∧
             kernel_size b ≤ h ∧ kernel_size b ≤ w)
  then Some (out_channels b,
             (h - kernel_size b) / stride b + 1,
             (w - kernel_size b) / stride b + 1)
  else None.

End ConvEncoder.

(** ** The exploration schedule *)

Module Exploration.
Local Open Scope Qc_scope.

(** Modelled from the spec: [EGreedyModule] is a class of the torchrl
    library and is not among the sources.  Epsilon is annealed from
    [eps_init] to [eps_end] over [annealing_num_steps] steps: every step
    lowers it by one [annealing_num_steps]-th of the distance between the
    two, never below [eps_end]. *)
Record EGreedyModule := mk {
  eps_init : Qc;
  eps_end : Qc;
  annealing_num_steps : Z;
  eps : Qc
}.

(** [torch.maximum] on scalars. *)
Definition Qcmax (a b : Qc) : Qc := if Qclt_le_dec a b then b else a.

Definition Qc_of_Z (n : Z) : Qc := Q2Qc (inject_Z n).

(** Modelled from the spec: one step of the annealing of [EGreedyModule],
    eps := max(eps_end, eps - (eps_init - eps_end) / annealing_num_steps). *)
Definition step1 (g : EGreedyModule) : EGreedyModule :=
  mk (eps_init g) (eps_end g) (annealing_num_steps g)
     (Qcmax (eps_end g)
            (eps g - (eps_init g - eps_end g) / Qc_of_Z (annealing_num_steps g))).

(** Modelled from the spec: [EGreedyModule.step(frames)], which the loop
    calls with the frame count of each batch: one decrement per frame. *)
Definition step (frames : Z) (g : EGreedyModule) : EGreedyModule :=
  Z.iter frames step1 g.

End Exploration.

(** ** The replay buffer *)

Module Replay.

Section WithObs.
Context {Obs : Type}.

(** One collected frame, with the fields of the spec's data model that the
    buffer and the n-step transform use.  Rewards are exact rationals. *)
Record Transition := mkTransition {
  observation : Obs;
  action : nat;
  reward : Qc;
  next_observation : Obs;
  done : bool
}.

(** Modelled from the spec: [MultiStepTransform] is a class of the torchrl
    library and is not among the sources.  A window of n consecutive
    transitions is folded into one: reward = discounted sum over the n
    steps, next_observation = the observation n steps ahead, done = any
    terminal within the window. *)
Fixpoint discounted_sum (gamma : Qc) (k : nat) (rewards : list Qc) : Qc :=
  match rewards with
  | [] => 0%Qc
  | r :: rest => (gamma ^ k * r + discounted_sum gamma (S k) rest)%Qc
  end.

(** Modelled from the spec: the fold of one window of [MultiStepTransform];
    observation and action are those of the first step. *)
Definition fold_window (gamma : Qc) (w : list Transition)
  : option Transition :=
  match w, last w with
  | first :: _, Some final =>
      Some (mkTransition (observation first) (action first)
              (discounted_sum gamma 0 (reward <$> w))
              (next_observation final)
              (existsb done w))
  | _, _ => None
  end.

(** The windows of [n] consecutive elements of [l], in order. *)
Fixpoint windows {A} (n : nat) (l : list A) : list (list A) :=
  match l with
  | [] => []
  | _ :: rest =>
      (if decide (n ≤ length l) then [take n l] else []) ++ windows n rest
  end.

(** Modelled from the spec: [MultiStepTransform(n_steps, gamma)] on a batch
    of consecutive transitions, one folded transition per full window. *)
Definition multi_step (n_steps : nat) (gamma : Qc) (data : list Transition)
  : list Transition :=
  omap (fold_window gamma) (windows n_steps data).

(** Modelled from the spec: [TensorDictPrioritizedReplayBuffer] and
    [LazyMemmapStorage] are classes of the torchrl library and are not
    among the sources.  The store is a fixed-capacity circular store:
    insertion order defines eviction order once full (oldest
    overwritten).  [extend] folds the batch with the n-step transform,
    when one is configured, before insertion. *)
Record ReplayBuffer := mkBuffer {
  max_size : nat;
  transform : option (nat * Qc);     (* MultiStepTransform(n_steps, gamma) or None *)
  storage : list Transition;         (* the slots written so far, by index *)
  cursor : nat                       (* the slot the next item goes to *)
}.

(** Modelled from the spec: the buffer as constructed, nothing stored. *)
Definition empty (capacity : nat) (tr : option (nat * Qc)) : ReplayBuffer :=
  mkBuffer capacity tr [] 0.

(** Modelled from the spec: one item goes to the slot under the cursor,
    which then moves on round the store; once the store is full this
    overwrites the oldest item. *)
Definition write (rb : ReplayBuffer) (x : Transition) : ReplayBuffer :=
  mkBuffer (max_size rb) (transform rb)
    (if decide (length (storage rb) < max_size rb)
     then storage rb ++ [x]
     else <[cursor rb := x]> (storage rb))
    (S (cursor rb) `mod` max_size rb).

(** Modelled from the spec: [replay_buffer.extend(data)], the items of the
    batch written in order, after the n-step fold when it is configured. *)
Definition extend (rb : ReplayBuffer) (data : list Transition)
  : ReplayBuffer :=
  let items := match transform rb with
               | Some (n, gamma) => multi_step n gamma data
               | None => data
               end in
  foldl write rb items.

(** Modelled from the spec: [len(replay_buffer)], the number of stored
    items. *)
Definition size (rb : ReplayBuffer) : nat := length (storage rb).

(** Modelled from the spec: the stored items, oldest first. *)
Definition contents (rb : ReplayBuffer) : list Transition :=
  drop (cursor rb) (storage rb) ++ take (cursor rb) (storage rb).

End WithObs.
Global Arguments Transition : clear implicits.
Global Arguments ReplayBuffer : clear implicits.

End Replay.

(** ** The online and target networks *)

Module Target.
Local Open Scope Z_scope.

Section WithParams.
Context {Params : Type}.

(** The parameters of the loss module (online and target network) and the
    step counter of the target-network updater. *)
Record Learner := mkLearner {
  online : Params;
  target : Params;
  counter : Z
}.

(** Modelled from the spec: [HardUpdate] is a class of the torchrl library
    and is not among the sources.  The target network parameters are
    copied wholesale from the online network every
    [value_network_update_interval] optimizer steps, not blended
    continuously. *)
Definition step (value_network_update_interval : Z) (l : Learner)
  : Learner :=
  if decide (counter l + 1 = value_network_update_interval)
  then mkLearner (online l) (online l) 0
  else mkLearner (online l) (target l) (counter l + 1).

End WithParams.
Global Arguments Learner : clear implicits.

End Target.

(** ** The prioritized sampler *)

Module Prioritized.
Import Replay Target.

Section WithObs.
Context {Obs Params Priority Rng : Type}.

(** Modelled from the spec: the sampling side of
    [TensorDictPrioritizedReplayBuffer], a class of the torchrl library
    that is not among the sources.  The items of the store have
    priorities, by key.  Sampling requests may be served ahead of
    consumption, up to a fixed prefetch depth: a request draws a batch of
    keys and reads their transitions from the store.  The priority of a
    transition that [sample] has returned is stale until a priority update
    overwrites it from the most recent TD error of the transition.  The
    priority a new item gets on insertion is an open question of the spec
    and is not modelled: [priority] holds what the priority updates
    wrote. *)
Record Sampler := mkSampler {
  prefetch : nat;                  (* the prefetch depth *)
  (* the batches of the requests served ahead, oldest first *)
  queue : list (list (nat * Transition Obs));
  priority : gmap nat Priority;    (* the priorities written, by key *)
  rng : Rng;                       (* the state of the random draws *)
  (* the transitions [sample] has returned, with their keys, whose
     priority has not been overwritten since *)
  stale : list (nat * Transition Obs)
}.

(** The random draw of a batch of keys, with a probability that grows with
    the priority, and the priority that the TD error of a transition
    gives under the networks of the loss module: floating-point
    computations of the library and of the loss module, taken as
    given. *)
Variable fetch :
  Rng -> gmap nat Priority -> ReplayBuffer Obs -> Z -> list nat * Rng.
Variable new_priority : Learner Params -> Transition Obs -> Priority.

(** Modelled from the spec: the transitions behind a batch of keys; a key
    whose slot has not been written is never returned. *)
Definition read (rb : ReplayBuffer Obs) (keys : list nat)
  : list (nat * Transition Obs) :=
  omap (λ k, pair k <$> storage rb !! k) keys.

(** Modelled from the spec: [n] more sampling requests are served ahead of
    consumption: the keys of each are drawn, and their transitions read,
    from the store and the priorities as they are at that time. *)
Fixpoint fill (n : nat) (smp : Sampler) (rb : ReplayBuffer Obs)
    (batch_size : Z) : Sampler :=
  match n with
  | 0 => smp
  | S n' =>
      let '(keys, r) := fetch (rng smp) (priority smp) rb batch_size in
      fill n'
        (mkSampler (prefetch smp) (queue smp ++ [read rb keys])
           (priority smp) r (stale smp))
        rb batch_size
  end.

(** Modelled from the spec: [replay_buffer.sample(batch_size)].  Requests
    are served until as many as the prefetch depth are waiting (at least
    the one that is due), and the batch of the oldest is returned, to the
    loop as its keys.  The priorities of the returned transitions are
    stale from then on. *)
Definition sample (smp : Sampler) (rb : ReplayBuffer Obs) (batch_size : Z)
  : list nat * Sampler :=
  let smp :=
    fill (Nat.max 1 (prefetch smp) - length (queue smp)) smp rb batch_size in
  match queue smp with
  | batch :: waiting =>
      (batch.*1,
       mkSampler (prefetch smp) waiting (priority smp) (rng smp)
         (stale smp ++ batch))
  | [] => ([], smp)
  end.

(** Modelled from the spec: the priority of one returned transition is
    overwritten, when its key is among those of the update. *)
Definition write_priority (keys : list nat) (l : Learner Params)
    (t : gmap nat Priority) (e : nat * Transition Obs)
  : gmap nat Priority :=
  if decide (e.1 ∈ keys) then <[e.1 := new_priority l e.2]> t else t.

(** Modelled from the spec: [replay_buffer.update_tensordict_priority] on
    a sampled batch with the keys [keys], whose TD errors were computed
    under the networks [l]: the priorities of the transitions returned
    under these keys are overwritten, and are stale no longer. *)
Definition update_tensordict_priority (smp : Sampler) (keys : list nat)
    (l : Learner Params) : Sampler :=
  mkSampler (prefetch smp) (queue smp)
    (foldl (write_priority keys l) (priority smp) (stale smp))
    (rng smp)
    (filter (λ e, e.1 ∉ keys) (stale smp)).

(** The sampler of the buffer as [main] constructs it ([prefetch=10]):
    nothing drawn, no priority written. *)
Definition replay_sampler (r : Rng) : Sampler := mkSampler 10 [] ∅ r [].

End WithObs.
Global Arguments Sampler : clear implicits.

End Prioritized.

(** ** The training loop: [main] of src/rl/dqn/dqn_train.py *)

Module Train.
Import Replay Target.
Local Open Scope Z_scope.

(** The options of [cfg] the loop reads. *)
Record Config := mkConfig {
  annealing_frames : Z;          (* cfg.collector.annealing_frames *)
  eps_start : Qc;                (* cfg.collector.eps_start *)
  eps_end : Qc;                  (* cfg.collector.eps_end *)
  frames_per_batch : Z;          (* cfg.collector.frames_per_batch *)
  total_frames : Z;              (* cfg.collector.total_frames *)
  init_random_frames : Z;        (* cfg.collector.init_random_frames *)
  buffer_size : nat;             (* cfg.buffer.buffer_size *)
  batch_size : Z;                (* cfg.buffer.batch_size *)
  nstep : Z;                     (* cfg.loss.nstep *)
  gamma : Qc;                    (* cfg.loss.gamma *)
  use_value_rescale : bool;      (* cfg.loss.use_value_rescale *)
  hard_update_freq : Z;          (* cfg.loss.hard_update_freq *)
  test_interval : Z;             (* cfg.logger.test_interval *)
  (* math.ceil(frames_per_batch / batch_size * cfg.loss.utd_ratio), a
     floating-point computation whose value is taken as given *)
  num_updates : nat
}.

Inductive exn := ZeroDivisionError | BackendError.

Section Main.
Context {Obs Params Sampler Logger : Type}.

(** What the loop calls and does not define: the prioritized sampler
    behind [replay_buffer.sample] and [update_tensordict_priority], the
    gradient step ([loss_module], [backward], gradient clipping,
    [optimizer.step]) and the logging backend, whose [log_scalar] may
    raise ([None]). *)
Variable draw : Sampler -> ReplayBuffer Obs -> Z -> list nat * Sampler.
Variable set_priority :
  Sampler -> list nat -> Learner Params -> Sampler.
Variable optimizer_step :
  Learner Params -> ReplayBuffer Obs -> list nat -> Params.
Variable log_scalar : Logger -> string -> Z -> option Logger.

Variable cfg : Config.

(** The calls of the loop that the properties are about, in program
    order. *)
Inductive Event :=
| Sample (keys : list nat)           (* replay_buffer.sample returned *)
| TargetStep (l : Learner Params)    (* target_net_updater.step() returned *)
| UpdatePriority (keys : list nat)   (* replay_buffer.update_tensordict_priority *)
| Save (collected : Z)               (* torch.save(model, ...) *)
| LogScalar (key : string) (step : Z)
| UpdatePolicyWeights.               (* collector.update_policy_weights_() *)

Record State := mkState {
  collected_frames : Z;
  greedy_module : Exploration.EGreedyModule;
  replay_buffer : ReplayBuffer Obs;
  learner : Learner Params;
  sampler : Sampler;
  logger : option Logger;
  trace : list Event
}.

Definition Data := list (Transition Obs).

(** [data.numel()] after [data.reshape(-1)] *)
Definition numel (data : Data) : Z := Z.of_nat (length data).

(** The objects [main] builds before the loop. *)
Definition setup (model : Params) (rng : Sampler) (lg : option Logger)
  : State :=
  mkState 0
    (Exploration.mk (eps_start cfg) (eps_end cfg) (annealing_frames cfg)
       (eps_start cfg))
    (Replay.empty (buffer_size cfg)
       (if decide (1 < nstep cfg)
        then Some (Z.to_nat (nstep cfg), gamma cfg) else None))
    (mkLearner model model 0)
    rng lg [].

Definition record (s : State) (evs : list Event) : State :=
  mkState (collected_frames s) (greedy_module s) (replay_buffer s)
    (learner s) (sampler s) (logger s) (trace s ++ evs).

(** [for key, value in log_info.items(): logger.log_scalar(key, value,
    step=collected_frames)].  The logged values are floating-point
    tensors that no branch depends on; only the keys are kept. *)
Fixpoint log_items (lg : Logger) (keys : list string) (step : Z)
  : list Event * Logger * option exn :=
  match keys with
  | [] => ([], lg, None)
  | key :: rest =>
      match log_scalar lg key step with
      | None => ([], lg, Some BackendError)
      | Some lg' =>
          let '(evs, lg'', r) := log_items lg' rest step in
          (LogScalar key step :: evs, lg'', r)
      end
  end.

(** [if logger: for ...: logger.log_scalar(...)] *)
Definition emit (log_info : list string) (s : State)
  : State * option exn :=
  match logger s with
  | None => (s, None)
  | Some lg =>
      let '(evs, lg', r) := log_items lg log_info (collected_frames s) in
      (mkState (collected_frames s) (greedy_module s) (replay_buffer s)
         (learner s) (sampler s) (Some lg') (trace s ++ evs), r)
  end.

(** One iteration of [for j in range(num_updates)].  The priorities that
    [update_tensordict_priority] writes are those [loss_module] left in
    the sampled batch, computed before [optimizer.step()] and
    [target_net_updater.step()]: the sampler gets the networks [l0] the
    iteration starts with. *)
Definition optimization_step (s : State) : State :=
  let '(sampled, smp) :=
    draw (sampler s) (replay_buffer s) (batch_size cfg) in
  let l0 := learner s in
  let l := mkLearner (optimizer_step l0 (replay_buffer s) sampled)
             (target l0) (counter l0) in
  let l := Target.step (hard_update_freq cfg) l in
  mkState (collected_frames s) (greedy_module s) (replay_buffer s)
    l (set_priority smp sampled l0) (logger s)
    (trace s ++ [Sample sampled; TargetStep l; UpdatePriority sampled]).

(** The checkpoint condition of the loop body. *)
Definition checkpoint_due (i collected : Z) : bool :=
  let prev_test_frame := ((i - 1) * frames_per_batch cfg) / test_interval cfg in
  let cur_test_frame := (i * frames_per_batch cfg) / test_interval cfg in
  let final := bool_decide (total_frames cfg ≤ collected) in
  (bool_decide (0 < i) && bool_decide (prev_test_frame < cur_test_frame))
  || final.

(** The body of [for i, data in enumerate(collector)]; [Some e] when the
    body raises [e]. *)
Definition loop_body (i : Z) (data : Data) (s : State)
  : State * option exn :=
  let current_frames := numel data in
  let s := mkState (collected_frames s + current_frames)
             (Exploration.step current_frames (greedy_module s))
             (replay_buffer s) (learner s) (sampler s) (logger s)
             (trace s) in
  let log_info :=
    if existsb done data
    then ["train/episode_reward"; "train/episode_length";
          "train/episode_weed_ratio"]%string
    else [] in
  let s := mkState (collected_frames s) (greedy_module s)
             (Replay.extend (replay_buffer s) data)
             (learner s) (sampler s) (logger s) (trace s) in
  if decide (collected_frames s < init_random_frames cfg) then
    emit log_info s
  else
    let s := Nat.iter (num_updates cfg) optimization_step s in
    let log_info :=
      log_info ++ ["train/q_loss"; "train/epsilon";
                   "train/sampling_time"; "train/training_time"]%string in
    if decide (frames_per_batch cfg = 0) then (s, Some ZeroDivisionError)
    else
      let log_info :=
        log_info ++
          (if use_value_rescale cfg
           then ["train/q_values"; "train/q_logits"]%string
           else ["train/q_values"]%string) in
      if decide (test_interval cfg = 0) then (s, Some ZeroDivisionError)
      else
        let s := if checkpoint_due i (collected_frames s)
                 then record s [Save (collected_frames s)] else s in
        match emit log_info s with
        | (s, None) => (record s [UpdatePolicyWeights], None)
        | (s, Some e) => (s, Some e)
        end.

(** [for i, data in enumerate(collector)], from index [i], over the
    batches the collector yields. *)
Fixpoint main_loop (i : Z) (batches : list Data) (s : State)
  : State * option exn :=
  match batches with
  | [] => (s, None)
  | data :: rest =>
      match loop_body i data s with
      | (s', None) => main_loop (i + 1) rest s'
      | (s', Some e) => (s', Some e)
      end
  end.

Definition main (model : Params) (rng : Sampler) (lg : option Logger)
    (batches : list Data) : State * option exn :=
  main_loop 0 batches (setup model rng lg).

(** Projections of the trace. *)
Definition saved (tr : list Event) : list Z :=
  omap (λ e, match e with Save c => Some c | _ => None end) tr.

Definition snapshots (tr : list Event) : list (Learner Params) :=
  omap (λ e, match e with TargetStep l => Some l | _ => None end) tr.

Definition is_buffer_call (e : Event) : bool :=
  match e with Sample _ | UpdatePriority _ => true | _ => false end.

Definition buffer_calls (tr : list Event) : list Event :=
  List.filter is_buffer_call tr.

(** Sample calls and priority updates come in pairs on the same keys. *)
Inductive paired : list Event -> Prop :=
| paired_nil : paired []
| paired_cons keys tr :
    paired tr -> paired (Sample keys :: UpdatePriority keys :: tr).

End Main.

End Train.

(** ** A small instance of the collaborators, for the examples *)

Module Demo.
Import Replay Target Train.

(** Network parameters are identified by the number of gradient steps that
    produced them. *)
Definition optimizer_step (l : Learner nat) (rb : ReplayBuffer unit)
    (keys : list nat) : nat := S (online l).

(** A sampler that walks round the store; its state counts the calls. *)
Definition draw (calls : nat) (rb : ReplayBuffer unit) (n : Z)
  : list nat * nat :=
  ((λ k, (calls + k) `mod` Replay.size rb) <$> seq 0 (Z.to_nat n), S calls).

Definition set_priority (calls : nat) (keys : list nat) (l : Learner nat)
  : nat := calls.

(** The same walk as the random draw of the prioritized sampler, and
    priorities that tell which gradient step they were computed in. *)
Definition fetch (calls : nat) (t : gmap nat nat) (rb : ReplayBuffer unit)
    (n : Z) : list nat * nat :=
  ((λ k, (calls + k) `mod` Replay.size rb) <$> seq 0 (Z.to_nat n), S calls).

Definition new_priority (l : Learner nat) (x : Transition unit) : nat :=
  S (online l).

(** A backend that keeps what it is given, and one that always raises. *)
Definition log_scalar (lg : list (string * Z)) (key : string) (step : Z)
  : option (list (string * Z)) := Some (lg ++ [(key, step)]).

Definition broken_log_scalar (lg : list (string * Z)) (key : string)
    (step : Z) : option (list (string * Z)) := None.

Definition frame : Transition unit := mkTransition tt 0 0%Qc tt false.

Definition cfg : Config :=
  {| annealing_frames := 5000; eps_start := 1%Qc;
     eps_end := Q2Qc (1 # 10);
     frames_per_batch := 1000; total_frames := 10000;
     init_random_frames := 0;
     buffer_size := 4; batch_size := 2;
     nstep := 1; gamma := Q2Qc (99 # 100);
     use_value_rescale := false; hard_update_freq := 3;
     test_interval := 2000; num_updates := 2 |}.

(** The same with the 3-step transform and discount 1/2. *)
Definition nstep_cfg : Config :=
  {| annealing_frames := 5000; eps_start := 1%Qc;
     eps_end := Q2Qc (1 # 10);
     frames_per_batch := 1000; total_frames := 10000;
     init_random_frames := 0;
     buffer_size := 4; batch_size := 2;
     nstep := 3; gamma := Q2Qc (1 # 2);
     use_value_rescale := false; hard_update_freq := 3;
     test_interval := 2000; num_updates := 2 |}.

(** Ten batches of 1000 frames. *)
Definition batches : list (@Data unit) := replicate 10 (replicate 1000 frame).

End Demo.

(** ** Checkpoint files *)

Module Checkpoint.
Local Open Scope Z_scope.

(** [str(n)] of a Python integer: decimal digits, with a minus sign for a
    negative number. *)
Definition py_str (n : Z) : string := NilZero.string_of_int (Z.to_int n).

(** [k] copies of a character. *)
Fixpoint fill (k : nat) (c : ascii) : string :=
  match k with
  | O => ""
  | S k' => String c (fill k' c)
  end.

(** [s.rjust(width, fillchar)]: padded on the left up to [width]; a string
    that is already that long is returned as it is. *)
Definition rjust (width : nat) (fillchar : ascii) (s : string) : string :=
  if decide (String.length s < width)%nat
  then fill (width - String.length s) fillchar +:+ s
  else s.

(** [model_name = str(collected_frames // 1000).rjust(5, '0')] *)
Definition model_name (collected_frames : Z) : string :=
  rjust 5 "0"%char (py_str (collected_frames / 1000)).

Definition algo_name : string := "dqn".

(** The path [torch.save] writes to,
    [f'{base_dir}/ckpt/{algo_name}/{ckpt_dir}/t[{model_name}].pt']. *)
Definition checkpoint_file (base_dir ckpt_dir : string) (collected_frames : Z)
  : string :=
  base_dir +:+ "/ckpt/" +:+ algo_name +:+ "/" +:+ ckpt_dir +:+ "/t["
    +:+ model_name collected_frames +:+ "].pt".

End Checkpoint.

(** * Properties *)

(** ** The encoder's dimensions *)

Module ConvEncoderSpec.
Import Torch ConvEncoder.

Lemma split_last_snoc (lead : shape) (d : nat) :
  split_last (lead ++ [d]) = Some (lead, d).
Proof.
  induction lead as [|x lead IH]; simpl; [done|]. by rewrite IH.
Qed.

Lemma linear_snoc (i o : nat) (lead : shape) (d : nat) :
  linear i o (lead ++ [d])
  = if decide (d = i) then Some (lead ++ [o]) else None.
Proof. unfold linear. by rewrite split_last_snoc. Qed.

Lemma concatenate_last_snoc (lead : shape) (da db : nat) :
  concatenate_last (lead ++ [da]) (lead ++ [db]) = Some (lead ++ [da + db]).
Proof.
  unfold concatenate_last, cat_should_skip. rewrite !split_last_snoc.
  destruct lead as [|x lead]; simpl.
  - destruct da as [|da]; simpl; [done|].
    destruct db as [|db]; simpl; [|done]. by rewrite Nat.add_0_r.
  - rewrite !bool_decide_eq_false_2 by (by destruct lead).
    by rewrite decide_True.
Qed.

(** What the concatenation does with a tensor of shape [0] on either
    side, and with two tensors that have elements or several dimensions. *)
Lemma concatenate_last_skip_l (b lb : shape) (db : nat) :
  split_last b = Some (lb, db) -> concatenate_last [0] b = Some b.
Proof. unfold concatenate_last. simpl. by intros ->. Qed.

Lemma concatenate_last_skip_r (a la : shape) (da : nat) :
  split_last a = Some (la, da) -> concatenate_last a [0] = Some a.
Proof.
  unfold concatenate_last, cat_should_skip. simpl. intros ->.
  case_bool_decide; by simplify_eq.
Qed.

Lemma concatenate_last_keep (la lb : shape) (da db : nat) :
  la ++ [da] ≠ [0] -> lb ++ [db] ≠ [0] ->
  concatenate_last (la ++ [da]) (lb ++ [db])
  = if decide (la = lb) then Some (la ++ [da + db]) else None.
Proof.
  intros Ha Hb. unfold concatenate_last, cat_should_skip.
  rewrite !split_last_snoc. by rewrite !bool_decide_eq_false_2.
Qed.

Lemma squash_dims_chw (lead : shape) (c h w : nat) :
  squash_dims (lead ++ [c; h; w]) = Some (lead ++ [c * h * w]).
Proof.
  unfold squash_dims. rewrite reverse_app. simpl.
  by rewrite reverse_involutive.
Qed.

Section WithBlock.
Variable conv_net_block : Block -> nat * nat * nat -> option (nat * nat * nat).

(** The extent of one sample through the blocks. *)
Fixpoint per_sample (layers : list Block) (chw : nat * nat * nat)
  : option (nat * nat * nat) :=
  match layers with
  | [] => Some chw
  | b :: rest => chw' ← conv_net_block b chw; per_sample rest chw'
  end.

Definition flat (chw : nat * nat * nat) : nat :=
  let '(c, h, w) := chw in c * h * w.

Lemma apply_blocks_batch (layers : list Block) (lead : shape) (c h w : nat) :
  length lead ≤ 1 ->
  apply_blocks conv_net_block layers (lead ++ [c; h; w])
  = (λ '(c', h', w'), lead ++ [c'; h'; w']) <$> per_sample layers (c, h, w).
Proof.
  intros Hlead. revert c h w.
  induction layers as [|b rest IH]; intros c h w; simpl; [done|].
  destruct lead as [|n [|? ?]]; simpl in *; try lia.
  - destruct (conv_net_block b (c, h, w)) as [[[c' h'] w']|]; simpl; [|done].
    apply (IH c' h' w').
  - destruct (conv_net_block b (c, h, w)) as [[[c' h'] w']|]; simpl; [|done].
    apply (IH c' h' w').
Qed.

(** The flattened width of the convolutional stack does not depend on the
    batch dimension. *)
Lemma cnn_encoder_batch (layers : list Block) (lead : shape) (c h w : nat) :
  length lead ≤ 1 ->
  cnn_encoder conv_net_block layers (lead ++ [c; h; w])
  = (λ chw, lead ++ [flat chw]) <$> per_sample layers (c, h, w).
Proof.
  intros Hlead. unfold cnn_encoder.
  rewrite apply_blocks_batch by done.
  destruct (per_sample layers (c, h, w)) as [[[c' h'] w']|]; simpl; [|done].
  apply squash_dims_chw.
Qed.

Lemma init_inv (c h w : nat) (cnn_channels kernel_sizes strides : list nat)
    (vec_dim vec_out : nat) (enc : t) (probes : list shape) :
  init conv_net_block [c; h; w] cnn_channels kernel_sizes strides
    vec_dim vec_out = Some (enc, probes) ->
  ∃ chw, per_sample (cnn_layers enc) (c, h, w) = Some chw ∧
         post_in_features enc = vec_dim + flat chw ∧
         post_out_features enc = vec_out ∧
         probes = [[1; c; h; w]].
Proof.
  unfold init. simpl. intros Hinit.
  destruct (build_layers kernel_sizes strides c 0 cnn_channels)
    as [layers|]; simpl in Hinit; [|done].
  change (unsqueeze0 [c; h; w]) with ([1] ++ [c; h; w]) in Hinit.
  rewrite cnn_encoder_batch in Hinit by (simpl; lia).
  destruct (per_sample layers (c, h, w)) as [chw|] eqn:Hchw;
    simpl in Hinit; [|done].
  injection Hinit as <- <-. by exists chw.
Qed.

(** C9: the width of the projection layer is fixed when the encoder is
    constructed, by one call of the convolutional stack on a dummy input
    of the declared (channels, height, width) shape; after that, a raster
    of that shape (unbatched or with a batch dimension) together with a
    vector of length [vec_dim] is mapped to an embedding of length
    [vec_out]. *)
Theorem encoder_output_dimension (c h w : nat)
    (cnn_channels kernel_sizes strides : list nat)
    (vec_dim vec_out : nat) (enc : t) (probes : list shape) :
  init conv_net_block [c; h; w] cnn_channels kernel_sizes strides
    vec_dim vec_out = Some (enc, probes) ->
  ∃ features,
    probes = [[1; c; h; w]] ∧
    cnn_encoder conv_net_block (cnn_layers enc) [1; c; h; w]
      = Some [1; features] ∧
    post_in_features enc = vec_dim + features ∧
    ∀ lead, length lead ≤ 1 ->
      forward conv_net_block enc (lead ++ [c; h; w])
        (Some (lead ++ [vec_dim])) = Some (lead ++ [vec_out]).
Proof.
  intros Hinit.
  destruct (init_inv _ _ _ _ _ _ _ _ _ _ Hinit)
    as (chw & Hchw & Hin & Hout & Hprobes).
  exists (flat chw). split; [done|]. split.
  - change [1; c; h; w] with ([1] ++ [c; h; w]).
    rewrite cnn_encoder_batch by (simpl; lia). by rewrite Hchw.
  - split; [done|]. intros lead Hlead. unfold forward.
    rewrite cnn_encoder_batch by done. rewrite Hchw. simpl.
    rewrite concatenate_last_snoc. simpl.
    unfold post_encoder. rewrite linear_snoc, Hin, Hout.
    rewrite decide_True by lia. done.
Qed.

(** C10: once the encoder is constructed, [forward] without a vector
    succeeds on a raster of the declared shape exactly when [vec_dim] is
    0; with [vec_dim > 0] the projection layer rejects the embedding. *)
Theorem forward_without_vector (c h w : nat)
    (cnn_channels kernel_sizes strides : list nat)
    (vec_dim vec_out : nat) (enc : t) (probes : list shape)
    (lead : shape) :
  init conv_net_block [c; h; w] cnn_channels kernel_sizes strides
    vec_dim vec_out = Some (enc, probes) ->
  length lead ≤ 1 ->
  (0 < vec_dim ->
     forward conv_net_block enc (lead ++ [c; h; w]) None = None) ∧
  (vec_dim = 0 ->
     forward conv_net_block enc (lead ++ [c; h; w]) None
     = Some (lead ++ [vec_out])).
Proof.
  intros Hinit Hlead.
  destruct (init_inv _ _ _ _ _ _ _ _ _ _ Hinit)
    as (chw & Hchw & Hin & Hout & _).
  unfold forward. rewrite cnn_encoder_batch by done. rewrite Hchw. simpl.
  unfold post_encoder. rewrite linear_snoc, Hin, Hout.
  split; intros Hv.
  - rewrite decide_False by lia. done.
  - rewrite decide_True by lia. done.
Qed.

End WithBlock.

Lemma encoder_output_dimension_witness :
  ∃ enc probes,
    init plain_conv [3; 16; 16] [16; 32; 64] [8; 4; 3] [1; 1; 1] 14 256
      = Some (enc, probes) ∧
    forward plain_conv enc [5; 3; 16; 16] (Some [5; 14]) = Some [5; 256].
Proof.
  eexists _, _. split; [reflexivity|].
  destruct (encoder_output_dimension plain_conv 3 16 16 [16; 32; 64]
              [8; 4; 3] [1; 1; 1] 14 256 _ _ eq_refl)
    as (features & _ & _ & _ & Hfwd).
  exact (Hfwd [5] (le_n 1)).
Defined.

Lemma forward_without_vector_witness :
  ∃ enc probes,
    init plain_conv [3; 16; 16] [16; 32; 64] [8; 4; 3] [1; 1; 1] 14 256
      = Some (enc, probes) ∧
    forward plain_conv enc [5; 3; 16; 16] None = None.
Proof.
  eexists _, _. split; [reflexivity|].
  refine (proj1 (forward_without_vector plain_conv 3 16 16 [16; 32; 64]
                   [8; 4; 3] [1; 1; 1] 14 256 _ _ [5] eq_refl (le_n 1)) _).
  lia.
Defined.

End ConvEncoderSpec.

(** ** The replay store *)

Module ReplaySpec.
Import Replay.

Section WithObs.
Context {Obs : Type}.
Local Abbreviation Transition := (Replay.Transition Obs).
Local Abbreviation ReplayBuffer := (Replay.ReplayBuffer Obs).

(** The cursor follows the slots while the store fills up and stays
    inside it afterwards. *)
Definition ring_inv (rb : ReplayBuffer) : Prop :=
  length (storage rb) ≤ max_size rb
  ∧ (length (storage rb) < max_size rb -> cursor rb = length (storage rb))
  ∧ (length (storage rb) = max_size rb ->
     cursor rb < max_size rb ∨ max_size rb = 0).

Lemma ring_inv_empty (capacity : nat) tr : ring_inv (empty capacity tr).
Proof. unfold ring_inv, empty. simpl. lia. Qed.

Lemma length_contents (rb : ReplayBuffer) :
  length (contents rb) = length (storage rb).
Proof.
  unfold contents. rewrite length_app, length_drop, length_take. lia.
Qed.

(** One write appends the item and drops the oldest one when the store
    is full. *)
Lemma write_spec (rb : ReplayBuffer) (x : Transition) :
  ring_inv rb ->
  ring_inv (write rb x)
  ∧ contents (write rb x)
    = drop (length (contents rb) + 1 - max_size rb) (contents rb ++ [x]).
Proof.
  intros (Hle & Hfill & Hfull). rewrite length_contents.
  destruct rb as [cap tr st c]. unfold ring_inv, contents, write.
  simpl in *.
  destruct (decide (length st < cap)) as [Hlt|Hge].
  - rewrite (Hfill Hlt). rewrite drop_all, (take_ge st (length st)) by lia.
    replace (length st + 1 - cap) with 0 by lia. simpl.
    rewrite length_app. simpl.
    destruct (decide (length st + 1 < cap)) as [Hroom|Hlast].
    + rewrite Nat.mod_small by lia.
      rewrite (drop_ge (st ++ [x])) by (rewrite length_app; simpl; lia).
      rewrite (take_ge (st ++ [x])) by (rewrite length_app; simpl; lia).
      split; [lia|done].
    + replace (S (length st)) with cap by lia.
      rewrite Nat.Div0.mod_same. simpl. rewrite app_nil_r.
      split; [lia|done].
  - rewrite length_insert.
    assert (length st = cap) as Hlen by lia.
    destruct (Hfull Hlen) as [Hc| ->].
    + replace (length st + 1 - cap) with 1 by lia.
      destruct (lookup_lt_is_Some_2 st c ltac:(lia)) as [y Hy].
      rewrite (drop_S st y c Hy). simpl.
      destruct (decide (S c < cap)) as [Hin|Hwrap].
      * rewrite Nat.mod_small by lia.
        rewrite drop_insert_lt by lia.
        rewrite take_insert_lt by lia.
        rewrite (take_S_r st c y Hy).
        rewrite insert_app_r_alt by (rewrite length_take; lia).
        rewrite length_take.
        replace (c - c `min` length st) with 0 by lia. simpl.
        split; [lia|]. by rewrite <- app_assoc.
      * replace (S c) with cap by lia.
        rewrite Nat.Div0.mod_same. simpl. rewrite app_nil_r.
        rewrite insert_take_drop by lia.
        rewrite !(drop_ge st cap), (drop_ge st (S c)) by lia. simpl.
        split; [lia|done].
    + destruct st; [|simpl in *; lia]. simpl.
      rewrite drop_nil, take_nil. simpl. split; [lia|done].
Qed.

Lemma writes_spec (xs : list Transition) (rb : ReplayBuffer) :
  ring_inv rb ->
  ring_inv (foldl write rb xs)
  ∧ max_size (foldl write rb xs) = max_size rb
  ∧ transform (foldl write rb xs) = transform rb
  ∧ contents (foldl write rb xs)
    = drop (length (contents rb) + length xs - max_size rb)
        (contents rb ++ xs).
Proof.
  revert rb. induction xs as [|x xs IH]; intros rb Hrb; simpl.
  - rewrite app_nil_r. split; [done|]. split; [done|]. split; [done|].
    rewrite length_contents. destruct Hrb as (Hle & _).
    replace (length (storage rb) + 0 - max_size rb) with 0 by lia. done.
  - destruct (write_spec rb x Hrb) as (Hrb1 & Hc1).
    destruct (IH (write rb x) Hrb1) as (Hrb' & Hcap & Htr & Hc').
    split; [done|]. split; [done|]. split; [done|].
    rewrite Hc', Hc1. cbn [max_size write].
    pose proof (length_contents rb) as Hlen.
    destruct Hrb as (Hle & _).
    rewrite length_drop, length_app. simpl.
    rewrite <- (drop_app_le (contents rb ++ [x]) xs)
      by (rewrite length_app; simpl; lia).
    rewrite drop_drop, <- app_assoc. simpl. f_equal. lia.
Qed.

Lemma extend_plain (rb : ReplayBuffer) (data : list Transition) :
  transform rb = None -> extend rb data = foldl write rb data.
Proof. unfold extend. by intros ->. Qed.

Lemma extends_plain (batches : list (list Transition)) (rb : ReplayBuffer) :
  ring_inv rb -> transform rb = None ->
  foldl extend rb batches = foldl write rb (concat batches).
Proof.
  revert rb. induction batches as [|b rest IH]; intros rb Hrb Htr; simpl;
    [done|].
  rewrite foldl_app, extend_plain by done.
  destruct (writes_spec b rb Hrb) as (Hrb' & _ & Htr' & _).
  apply IH; [done|]. by rewrite Htr'.
Qed.

Lemma write_first (capacity : nat) tr (x : Transition) :
  1 ≤ capacity -> contents (foldl write (empty capacity tr) [x]) = [x].
Proof.
  intros Hcap.
  destruct (writes_spec [x] (empty capacity tr) (ring_inv_empty _ _))
    as (_ & _ & _ & ->).
  simpl. replace (1 - capacity) with 0 by lia. done.
Qed.

(** Three steps with rewards 1, 2, 3 under n = 3 and discount 1/2. *)
Lemma multi_step_three (o1 o2 o3 n1 n2 n3 : Obs) (a1 a2 a3 : nat)
    (d1 d2 d3 : bool) :
  multi_step 3 (Q2Qc (1 # 2))
    [mkTransition o1 a1 1%Qc n1 d1;
     mkTransition o2 a2 (Q2Qc 2) n2 d2;
     mkTransition o3 a3 (Q2Qc 3) n3 d3]
  = [mkTransition o1 a1 (Q2Qc (11 # 4)) n3 (d1 || d2 || d3)].
Proof.
  unfold multi_step.
  cbn [windows length take decide_rel app omap fold_window last fmap
       list_fmap observation action next_observation reward done existsb].
  repeat (rewrite decide_True by (cbn [length]; lia)
          || rewrite decide_False by (cbn [length]; lia)).
  cbn [windows length take app omap list_omap fold_window last fmap
       list_fmap observation action next_observation reward done existsb
       option_bind mbind].
  f_equal. f_equal.
  all: first [ by destruct d1, d2, d3
             | apply Qc_is_canon; vm_compute; reflexivity ].
Qed.

(** C7: the store keeps the last [capacity] items.  After the batches
    handed to [extend] have brought capacity + k items (k >= 1), the
    store holds exactly the last [capacity] of them, oldest first, and
    after every batch on the way its size is at most [capacity]. *)
Theorem ring_buffer_eviction (capacity k : nat)
    (batches : list (list Transition)) :
  1 ≤ k ->
  length (concat batches) = capacity + k ->
  contents (foldl extend (empty capacity None) batches)
    = drop k (concat batches)
  ∧ size (foldl extend (empty capacity None) batches) = capacity
  ∧ ∀ j, size (foldl extend (empty capacity None) (take j batches))
         ≤ capacity.
Proof.
  intros Hk Hlen.
  assert (∀ bs, ring_inv (foldl extend (empty capacity None) bs)
                ∧ max_size (foldl extend (empty capacity None) bs)
                  = capacity
                ∧ contents (foldl extend (empty capacity None) bs)
                  = drop (length (concat bs) - capacity) (concat bs))
    as Hall.
  { intros bs. rewrite extends_plain by (apply ring_inv_empty || done).
    destruct (writes_spec (concat bs) (empty capacity None)
                (ring_inv_empty _ _)) as (Hinv & Hcap & _ & Hc).
    split; [done|]. split; [done|]. rewrite Hc. done. }
  destruct (Hall batches) as (Hinv & Hcap & Hc).
  replace (length (concat batches) - capacity) with k in Hc by lia.
  split; [done|]. split.
  - unfold size. rewrite <- length_contents, Hc, length_drop. lia.
  - intros j. destruct (Hall (take j batches)) as ((Hle & _) & Hcap' & _).
    unfold size. lia.
Qed.

End WithObs.

Lemma ring_buffer_eviction_witness :
  contents (foldl extend (empty 2 None)
              [[mkTransition 10 0 0%Qc 11 false;
                mkTransition 11 1 0%Qc 12 false];
               [mkTransition 12 0 1%Qc 13 true]])
  = [mkTransition 11 1 0%Qc 12 false; mkTransition 12 0 1%Qc 13 true].
Proof.
  refine (proj1 (ring_buffer_eviction 2 1
                   [[mkTransition 10 0 0%Qc 11 false;
                     mkTransition 11 1 0%Qc 12 false];
                    [mkTransition 12 0 1%Qc 13 true]] _ _));
    [lia|reflexivity].
Defined.

End ReplaySpec.

(** ** The exploration schedule *)

Module ExplorationSpec.
Import Exploration.
Local Open Scope Qc_scope.






Section Schedule.
Variables (eps_start eps_stop : Qc) (annealing : Z).
Hypothesis start_above : eps_stop <= eps_start.
Hypothesis annealing_pos : (0 < annealing)%Z.









End Schedule.

End ExplorationSpec.

(** ** The prioritized sampler *)

Module PrioritizedSpec.
Import Replay Target Prioritized.

Section WithObs.
Context {Obs Params Priority Rng : Type}.
Variable fetch :
  Rng -> gmap nat Priority -> ReplayBuffer Obs -> Z -> list nat * Rng.
Variable new_priority : Learner Params -> Transition Obs -> Priority.

Local Abbreviation Sampler := (Prioritized.Sampler Obs Priority Rng).

(** Serving requests ahead adds to the queue and draws on the random
    state, and nothing else. *)
Lemma fill_fields (n : nat) (smp : Sampler) (rb : ReplayBuffer Obs)
    (batch_size : Z) :
  prefetch (fill fetch n smp rb batch_size) = prefetch smp
  ∧ priority (fill fetch n smp rb batch_size) = priority smp
  ∧ stale (fill fetch n smp rb batch_size) = stale smp
  ∧ length (queue (fill fetch n smp rb batch_size))
    = length (queue smp) + n.
Proof.
  revert smp. induction n as [|n IH]; intros smp; simpl.
  - by rewrite Nat.add_0_r.
  - destruct (fetch (rng smp) (priority smp) rb batch_size) as [keys r].
    destruct (IH (mkSampler (prefetch smp) (queue smp ++ [read rb keys])
                    (priority smp) r (stale smp)))
      as (-> & -> & -> & ->).
    simpl. rewrite length_app. simpl. repeat split; lia.
Qed.

(** What a request reads is in the store at that time. *)
Lemma read_stored (rb : ReplayBuffer Obs) (keys : list nat) :
  Forall (λ e, storage rb !! e.1 = Some e.2) (read rb keys).
Proof.
  apply Forall_forall. intros [k x] Hin.
  apply list_elem_of_omap in Hin as (k' & _ & Hk).
  destruct (storage rb !! k') as [x'|] eqn:E; simplify_eq/=. done.
Qed.

(** [sample] returns the keys of a batch, adds its transitions to those
    with a stale priority, and writes no priority. *)
Lemma sample_spec (smp : Sampler) (rb : ReplayBuffer Obs) (batch_size : Z) :
  ∃ batch,
    (sample fetch smp rb batch_size).1 = batch.*1
    ∧ prefetch (sample fetch smp rb batch_size).2 = prefetch smp
    ∧ priority (sample fetch smp rb batch_size).2 = priority smp
    ∧ stale (sample fetch smp rb batch_size).2 = stale smp ++ batch.
Proof.
  unfold sample.
  destruct (fill_fields (Nat.max 1 (prefetch smp) - length (queue smp))
              smp rb batch_size) as (Hp & Ht & Ho & _).
  destruct (queue (fill fetch _ smp rb batch_size)) as [|batch waiting].
  - exists []. simpl. rewrite app_nil_r. by repeat split.
  - exists batch. simpl. by rewrite Hp, Ht, Ho.
Qed.

(** Without read-ahead the returned transitions are those the store holds
    under the returned keys. *)
Lemma sample_stored (smp : Sampler) (rb : ReplayBuffer Obs)
    (batch_size : Z) :
  prefetch smp ≤ 1 -> queue smp = [] ->
  stale smp = [] ->
  Forall (λ e, storage rb !! e.1 = Some e.2)
    (stale (sample fetch smp rb batch_size).2).
Proof.
  intros Hp Hq Hs. unfold sample. rewrite Hq. simpl.
  replace (Nat.max 1 (prefetch smp) - 0) with 1 by lia. simpl.
  destruct (fetch (rng smp) (priority smp) rb batch_size) as [keys r].
  simpl. rewrite Hq, Hs. simpl. apply read_stored.
Qed.

(** The requests waiting after a call of [sample] are within the prefetch
    depth. *)
Lemma sample_queue (smp : Sampler) (rb : ReplayBuffer Obs) (batch_size : Z) :
  length (queue smp) < Nat.max 1 (prefetch smp) ->
  length (queue (sample fetch smp rb batch_size).2)
  = Nat.max 1 (prefetch smp) - 1.
Proof.
  intros Hlen. unfold sample.
  destruct (fill_fields (Nat.max 1 (prefetch smp) - length (queue smp))
              smp rb batch_size) as (Hp & _ & _ & Hq).
  destruct (queue (fill fetch _ smp rb batch_size)) as [|keys waiting];
    simpl in *; lia.
Qed.

(** A filter that no element passes. *)
Lemma filter_none {A} (P : A -> Prop) `{!∀ x, Decision (P x)} (l : list A) :
  Forall (λ x, ¬ P x) l -> filter P l = [].
Proof.
  induction 1 as [|x l Hx _ IH]; [done|].
  by rewrite filter_cons_False.
Qed.

(** A priority update leaves the priorities of other keys alone ... *)
Lemma write_priority_other (keys : list nat) (l : Learner Params)
    (es : list (nat * Transition Obs)) (t : gmap nat Priority) (k : nat) :
  k ∉ keys ->
  foldl (write_priority new_priority keys l) t es !! k = t !! k.
Proof.
  intros Hk. revert t. induction es as [|e es IH]; intros t; simpl; [done|].
  rewrite IH. unfold write_priority. case_decide as He; [|done].
  apply lookup_insert_ne. intros E. by rewrite E in He.
Qed.

(** ... and gives a key of the update the priority of a transition that
    was returned under this key. *)
Lemma write_priority_key (keys : list nat) (l : Learner Params)
    (es : list (nat * Transition Obs)) (t : gmap nat Priority) (k : nat) :
  k ∈ keys -> k ∈ es.*1 ->
  ∃ x, (k, x) ∈ es
       ∧ foldl (write_priority new_priority keys l) t es !! k
         = Some (new_priority l x).
Proof.
  intros Hk. induction es as [|[k' x'] es IH] using rev_ind;
    [by intros ?%elem_of_nil|].
  rewrite fmap_app, foldl_app. simpl. intros Hin.
  unfold write_priority at 1. simpl.
  destruct (decide (k' = k)) as [->|Hne].
  - exists x'. rewrite decide_True by done. rewrite lookup_insert_eq.
    split; [|done]. apply elem_of_app. right. by apply list_elem_of_singleton.
  - apply elem_of_app in Hin as [Hin|Hin];
      [|apply list_elem_of_singleton in Hin; simpl in Hin; congruence].
    destruct (IH Hin) as (x & Hx & Hlook). exists x.
    split; [apply elem_of_app; by left|].
    case_decide; [by rewrite lookup_insert_ne|done].
Qed.

End WithObs.

End PrioritizedSpec.

(** ** The training loop *)

Module TrainSpec.
Import Replay Target Train.
Local Open Scope Z_scope.

Section Main.
Context {Obs Params Sampler Logger : Type}.
Variable draw : Sampler -> ReplayBuffer Obs -> Z -> list nat * Sampler.
Variable set_priority : Sampler -> list nat -> Learner Params -> Sampler.
Variable optimizer_step :
  Learner Params -> ReplayBuffer Obs -> list nat -> Params.
Variable log_scalar : Logger -> string -> Z -> option Logger.
Variable cfg : Config.

Local Abbreviation State := (@State Obs Params Sampler Logger).
Local Abbreviation Data := (@Train.Data Obs).
Local Abbreviation Event := (@Event Params).
Local Abbreviation emit :=
  (@Train.emit Obs Params Sampler Logger log_scalar).
Local Abbreviation log_items := (@Train.log_items Params Logger log_scalar).
Local Abbreviation optimization_step :=
  (Train.optimization_step draw set_priority optimizer_step cfg).
Local Abbreviation loop_body :=
  (Train.loop_body draw set_priority optimizer_step log_scalar cfg).
Local Abbreviation main_loop :=
  (Train.main_loop draw set_priority optimizer_step log_scalar cfg).

(** *** Logging only adds [LogScalar] events *)

Definition is_log (e : Event) : Prop :=
  match e with LogScalar _ _ => True | _ => False end.

Lemma log_items_events (keys : list string) (lg : Logger) (step : Z) :
  Forall is_log (log_items lg keys step).1.1.
Proof.
  revert lg. induction keys as [|key rest IH]; intros lg; simpl.
  - constructor.
  - destruct (log_scalar lg key step) as [lg'|]; simpl; [|constructor].
    specialize (IH lg'). destruct (log_items lg' rest step) as [[evs lg''] r].
    simpl in *. constructor; [exact I|done].
Qed.

Lemma emit_inv (log_info : list string) (s : State) :
  ∃ evs lg',
    (emit log_info s).1
    = mkState (collected_frames s) (greedy_module s) (replay_buffer s)
        (learner s) (sampler s) lg' (trace s ++ evs)
    ∧ Forall is_log evs.
Proof.
  unfold Train.emit. destruct s as [cf g rb l smp [lg|] tr]; simpl.
  - pose proof (log_items_events log_info lg cf) as Hev.
    destruct (log_items lg log_info cf) as [[evs lg'] r]; simpl in *.
    by eexists evs, _.
  - exists [], None. rewrite app_nil_r. split; [done|constructor].
Qed.

(** A backend that never raises lets every emission through. *)
Lemma log_items_ok (keys : list string) (lg : Logger) (step : Z) :
  (∀ l k st, is_Some (log_scalar l k st)) ->
  (log_items lg keys step).2 = None.
Proof.
  intros Hok. revert lg. induction keys as [|key rest IH]; intros lg; simpl.
  - done.
  - destruct (Hok lg key step) as [lg1 ->].
    specialize (IH lg1).
    destruct (log_items lg1 rest step) as [[evs lg'] r]. done.
Qed.

Lemma emit_ok (log_info : list string) (s : State) :
  (∀ l k st, is_Some (log_scalar l k st)) ->
  (emit log_info s).2 = None.
Proof.
  intros Hok. unfold Train.emit. destruct (logger s) as [lg|]; [|done].
  pose proof (log_items_ok log_info lg (collected_frames s) Hok) as H.
  destruct (log_items lg log_info (collected_frames s)) as [[evs lg'] r].
  done.
Qed.

(** *** What the optimization steps leave alone *)

Lemma optimization_step_frames (s : State) :
  collected_frames (optimization_step s) = collected_frames s
  ∧ greedy_module (optimization_step s) = greedy_module s
  ∧ replay_buffer (optimization_step s) = replay_buffer s
  ∧ logger (optimization_step s) = logger s.
Proof.
  unfold Train.optimization_step.
  destruct (draw (sampler s) (replay_buffer s) (batch_size cfg)). done.
Qed.

Lemma optimization_frames (n : nat) (s : State) :
  collected_frames (Nat.iter n optimization_step s) = collected_frames s
  ∧ greedy_module (Nat.iter n optimization_step s) = greedy_module s
  ∧ replay_buffer (Nat.iter n optimization_step s) = replay_buffer s
  ∧ logger (Nat.iter n optimization_step s) = logger s.
Proof.
  induction n as [|n IH]; simpl; [done|].
  destruct (optimization_step_frames (Nat.iter n optimization_step s))
    as (-> & -> & -> & ->). exact IH.
Qed.

Lemma optimization_step_trace (s : State) :
  ∃ keys l,
    trace (optimization_step s)
    = trace s ++ [Sample keys; TargetStep l; UpdatePriority keys]
    ∧ learner (optimization_step s) = l
    ∧ l = Target.step (hard_update_freq cfg)
            (mkLearner (optimizer_step (learner s) (replay_buffer s) keys)
               (target (learner s)) (counter (learner s))).
Proof.
  unfold Train.optimization_step.
  destruct (draw (sampler s) (replay_buffer s) (batch_size cfg))
    as [keys smp]. simpl. by eexists keys, _.
Qed.


Definition is_opt (e : Event) : Prop :=
  match e with
  | Sample _ | TargetStep _ | UpdatePriority _ => True
  | _ => False
  end.

Lemma optimization_trace (n : nat) (s : State) :
  ∃ evs, trace (Nat.iter n optimization_step s) = trace s ++ evs
         ∧ Forall is_opt evs.
Proof.
  induction n as [|n (evs & IH & Hevs)]; simpl.
  - exists []. by rewrite app_nil_r.
  - destruct (optimization_step_trace (Nat.iter n optimization_step s))
      as (keys & l & -> & _).
    rewrite IH, <- app_assoc. eexists. split; [done|].
    apply Forall_app. split; [done|]. by repeat constructor.
Qed.

Lemma saved_app (a b : list Event) : saved (a ++ b) = saved a ++ saved b.
Proof. apply omap_app. Qed.

Lemma saved_log (evs : list Event) : Forall is_log evs -> saved evs = [].
Proof.
  induction 1 as [|e evs He _ IH]; [done|].
  destruct e; simpl in *; done.
Qed.

Lemma saved_opt (evs : list Event) : Forall is_opt evs -> saved evs = [].
Proof.
  induction 1 as [|e evs He _ IH]; [done|].
  destruct e; simpl in *; done.
Qed.

(** *** Invariants of the loop *)

Definition is_quiet (e : Event) : Prop :=
  match e with
  | Save _ | LogScalar _ _ | UpdatePolicyWeights => True
  | _ => False
  end.

Lemma is_log_quiet (evs : list Event) :
  Forall is_log evs -> Forall is_quiet evs.
Proof. intros H. eapply Forall_impl; [exact H|]. by intros []. Qed.

Section Invariant.
(** A property of the state that the optimization step keeps, and that
    does not look at the counters, the buffer, the logger or the
    events outside the optimization step, holds along the whole
    loop, also when the loop is left by an exception. *)
Variable P : State -> Prop.
Hypothesis P_step : ∀ s, P s -> P (optimization_step s).
Hypothesis P_frame : ∀ s cf g rb lg evs,
  P s -> Forall is_quiet evs ->
  P (mkState cf g rb (learner s) (sampler s) lg (trace s ++ evs)).

Lemma P_fields (s : State) cf g rb lg :
  P s -> P (mkState cf g rb (learner s) (sampler s) lg (trace s)).
Proof.
  intros Hs. rewrite <- (app_nil_r (trace s)).
  by apply P_frame.
Qed.

Lemma emit_invariant (log_info : list string) (s : State) :
  P s -> P (emit log_info s).1.
Proof.
  intros Hs. destruct (emit_inv log_info s) as (evs & lg' & -> & Hevs).
  apply P_frame; [done|]. by apply is_log_quiet.
Qed.

Lemma optimization_invariant (n : nat) (s : State) :
  P s -> P (Nat.iter n optimization_step s).
Proof. intros Hs. induction n; simpl; auto. Qed.

Lemma loop_body_invariant (i : Z) (data : Data) (s : State) :
  P s -> P (loop_body i data s).1.
Proof.
  intros Hs. unfold Train.loop_body. cbn [collected_frames
    greedy_module replay_buffer learner sampler logger trace].
  match goal with |- context [Nat.iter _ _ ?s0] =>
    assert (P s0) as Hs0 by (by apply P_fields); revert Hs0;
    generalize s0 end.
  intros s0 Hs0. case_decide; [by apply emit_invariant|].
  pose proof (optimization_invariant (num_updates cfg) s0 Hs0) as Hs1.
  revert Hs1. generalize (Nat.iter (num_updates cfg) optimization_step s0).
  intros s1 Hs1. repeat case_decide; try done.
  match goal with |- context [Train.emit _ ?li ?s2] =>
    assert (P s2) as Hs2
      by (destruct (checkpoint_due cfg i (collected_frames s1));
          [apply P_frame; [done|by repeat constructor]|done]);
    pose proof (emit_invariant li s2 Hs2) as Hs3;
    destruct (Train.emit log_scalar li s2) as [s3 [e|]] end.
  - done.
  - simpl in *. apply P_frame; [done|]. by repeat constructor.
Qed.

Lemma main_loop_invariant (batches : list Data) (i : Z) (s : State) :
  P s -> P (main_loop i batches s).1.
Proof.
  revert i s. induction batches as [|data rest IH]; intros i s Hs;
    simpl; [done|].
  pose proof (loop_body_invariant i data s Hs) as Hs1.
  destruct (loop_body i data s) as [s1 [e|]]; [done|].
  by apply IH.
Qed.

End Invariant.

(** *** Sampling and priority updates *)

Lemma paired_app (a b : list Event) :
  paired a -> paired b -> paired (a ++ b).
Proof. induction 1; simpl; [done|]. intros. constructor. auto. Qed.

Lemma buffer_calls_app (a b : list Event) :
  buffer_calls (a ++ b) = buffer_calls a ++ buffer_calls b.
Proof. apply List.filter_app. Qed.

Lemma buffer_calls_quiet (evs : list Event) :
  Forall is_quiet evs -> buffer_calls evs = [].
Proof.
  induction 1 as [|e evs He _ IH]; [done|].
  destruct e; simpl in *; done.
Qed.

Lemma paired_invariant (batches : list Data) (i : Z) (s : State) :
  paired (buffer_calls (trace s)) ->
  paired (buffer_calls (trace (main_loop i batches s).1)).
Proof.
  apply (main_loop_invariant (λ s, paired (buffer_calls (trace s)))).
  - intros s0 Hs0.
    destruct (optimization_step_trace s0) as (keys & l & -> & _).
    rewrite buffer_calls_app. apply paired_app; [done|].
    simpl. by repeat constructor.
  - intros s0 cf g rb lg evs Hs0 Hevs. simpl.
    by rewrite buffer_calls_app, (buffer_calls_quiet _ Hevs), app_nil_r.
Qed.

(** *** The target network *)

Lemma counter_step (n c f : Z) :
  0 < f -> c = n `mod` f ->
  (c + 1 = f -> (n + 1) `mod` f = 0)
  ∧ (c + 1 ≠ f -> (n + 1) `mod` f = c + 1).
Proof.
  intros Hf ->. split; intros H.
  - symmetry. apply (Z.mod_unique_pos _ _ (n / f + 1)); [lia|].
    pose proof (Z.div_mod n f). lia.
  - symmetry. pose proof (Z.mod_pos_bound n f Hf).
    apply (Z.mod_unique_pos _ _ (n / f)); [lia|].
    pose proof (Z.div_mod n f). lia.
Qed.

Lemma snapshots_app (a b : list Event) :
  snapshots (a ++ b) = snapshots a ++ snapshots b.
Proof. apply omap_app. Qed.

Lemma snapshots_quiet (evs : list Event) :
  Forall is_quiet evs -> snapshots evs = [].
Proof.
  induction 1 as [|e evs He _ IH]; [done|].
  destruct e; simpl in *; done.
Qed.

(** The networks after each optimizer step, preceded by the networks
    [l0] the loop starts with. *)
Definition history (l0 : Learner Params) (s : State)
  : list (Learner Params) := l0 :: snapshots (trace s).

Definition hard_update_ok (l0 : Learner Params) (s : State) : Prop :=
  ∀ (k : nat) prev cur,
    history l0 s !! k = Some prev ->
    history l0 s !! S k = Some cur ->
    counter cur = (Z.of_nat k + 1) `mod` hard_update_freq cfg
    ∧ if decide ((Z.of_nat k + 1) `mod` hard_update_freq cfg = 0)
      then target cur = online cur
      else target cur = target prev.

Definition target_inv (l0 : Learner Params) (s : State) : Prop :=
  last (history l0 s) = Some (learner s)
  ∧ counter (learner s)
    = Z.of_nat (length (snapshots (trace s))) `mod` hard_update_freq cfg
  ∧ hard_update_ok l0 s.

Lemma target_inv_step (l0 : Learner Params) (s : State) :
  0 < hard_update_freq cfg ->
  target_inv l0 s -> target_inv l0 (optimization_step s).
Proof.
  intros Hf (Hlast & Hcount & Hok).
  destruct (optimization_step_trace s) as (keys & l & Htr & Hl & Hstep).
  assert (history l0 (optimization_step s) = history l0 s ++ [l]) as Hh.
  { unfold history. rewrite Htr, snapshots_app. done. }
  destruct (counter_step _ _ _ Hf Hcount) as [Hhit Hmiss].
  assert (counter l = (Z.of_nat (length (snapshots (trace s))) + 1)
                      `mod` hard_update_freq cfg
          ∧ if decide ((Z.of_nat (length (snapshots (trace s))) + 1)
                       `mod` hard_update_freq cfg = 0)
            then target l = online l
            else target l = target (learner s)) as Hnew.
  { rewrite Hstep. unfold Target.step. cbn [counter online target].
    destruct (decide (counter (learner s) + 1 = hard_update_freq cfg))
      as [E|E]; cbn [counter online target].
    - rewrite (Hhit E). by rewrite decide_True.
    - rewrite (Hmiss E).
      pose proof (Z.mod_pos_bound
                    (Z.of_nat (length (snapshots (trace s))))
                    _ Hf).
      rewrite decide_False by lia. done. }
  split; [|split].
  - rewrite Hh, last_snoc. by rewrite Hl.
  - rewrite Hl, Htr, snapshots_app, length_app. simpl.
    rewrite Nat2Z.inj_add. apply Hnew.
  - intros k prev cur. rewrite Hh. intros Hprev Hcur.
    destruct (decide (S k < length (history l0 s))%nat) as [Hk|Hk].
    + rewrite lookup_app_l in Hprev by lia.
      rewrite lookup_app_l in Hcur by lia. by apply Hok.
    + assert (length (history l0 s)
              = S (length (snapshots (trace s)))) as Hlh by done.
      apply lookup_lt_Some in Hcur as Hlen.
      rewrite length_app, Hlh in Hlen. cbn [length] in Hlen.
      assert (k = length (snapshots (trace s))) as -> by lia.
      rewrite lookup_app_l in Hprev by lia.
      rewrite lookup_app_r in Hcur by lia.
      rewrite Hlh, Nat.sub_diag in Hcur. injection Hcur as <-.
      rewrite last_lookup, Hlh in Hlast. cbn [Nat.pred] in Hlast.
      rewrite Hprev in Hlast. injection Hlast as ->.
      exact Hnew.
Qed.

Lemma target_invariant (l0 : Learner Params) (batches : list Data)
    (i : Z) (s : State) :
  0 < hard_update_freq cfg ->
  target_inv l0 s -> target_inv l0 (main_loop i batches s).1.
Proof.
  intros Hf. apply (main_loop_invariant (target_inv l0)).
  - intros s0. by apply target_inv_step.
  - intros s0 cf g rb lg evs Hs0 Hevs.
    unfold target_inv, hard_update_ok, history in *. simpl.
    by rewrite snapshots_app, (snapshots_quiet _ Hevs), app_nil_r.
Qed.

(** *** Counters, schedule and buffer *)

Lemma loop_body_fields (i : Z) (data : Data) (s : State) :
  collected_frames (loop_body i data s).1
    = collected_frames s + numel data
  ∧ greedy_module (loop_body i data s).1
    = Exploration.step (numel data) (greedy_module s)
  ∧ replay_buffer (loop_body i data s).1
    = Replay.extend (replay_buffer s) data.
Proof.
  unfold Train.loop_body. cbn [collected_frames greedy_module
    replay_buffer learner sampler logger trace].
  case_decide.
  - match goal with |- context [Train.emit _ ?li ?s0] =>
      destruct (emit_inv li s0) as (evs & lg' & -> & _) end. done.
  - match goal with |- context [Nat.iter ?n _ ?s0] =>
      destruct (optimization_frames n s0) as (Hcf & Hg & Hrb & _);
      revert Hcf Hg Hrb;
      generalize (Nat.iter n optimization_step s0) end.
    cbn [collected_frames greedy_module replay_buffer].
    intros s1 Hcf Hg Hrb. repeat case_decide; try done.
    match goal with |- context [Train.emit _ ?li ?s2] =>
      destruct (emit_inv li s2) as (evs & lg' & Hs3 & _);
      destruct (Train.emit log_scalar li s2) as [s3 [e|]] end;
      simpl in Hs3; subst s3;
      destruct (checkpoint_due cfg i (collected_frames s1)); done.
Qed.


(** A run that no exception ends has handed every batch to
    [replay_buffer.extend], in order. *)
Lemma main_loop_buffer (batches : list Data) (i : Z) (s s' : State) :
  main_loop i batches s = (s', None) ->
  replay_buffer s' = foldl Replay.extend (replay_buffer s) batches.
Proof.
  revert i s. induction batches as [|data rest IH]; intros i s; simpl.
  - by intros [= <-].
  - destruct (loop_body_fields i data s) as (_ & _ & Hrb).
    destruct (loop_body i data s) as [s1 [e|]]; [done|].
    intros Hrun. rewrite (IH _ _ Hrun). simpl in Hrb. by rewrite Hrb.
Qed.

(** *** Where checkpoints are written *)

(** The checkpoints of the batch with index [i] that brings the frame
    count to [collected]. *)
Definition saves_of (i collected : Z) : list Z :=
  if decide (collected < init_random_frames cfg) then []
  else if checkpoint_due cfg i collected then [collected] else [].

Fixpoint schedule (i collected : Z) (sizes : list Z) : list Z :=
  match sizes with
  | [] => []
  | n :: rest =>
      saves_of i (collected + n) ++ schedule (i + 1) (collected + n) rest
  end.

Lemma loop_body_saved (i : Z) (data : Data) (s : State) :
  (∀ l k st, is_Some (log_scalar l k st)) ->
  frames_per_batch cfg ≠ 0 -> test_interval cfg ≠ 0 ->
  ∃ s', loop_body i data s = (s', None)
        ∧ collected_frames s' = collected_frames s + numel data
        ∧ saved (trace s')
          = saved (trace s) ++ saves_of i (collected_frames s + numel data).
Proof.
  intros Hok Hfpb Hti. unfold Train.loop_body, saves_of. simpl.
  destruct (decide (collected_frames s + numel data
                    < init_random_frames cfg)) as [Hwarm|Htrain].
  - match goal with |- context [Train.emit _ ?li ?s0] =>
      pose proof (emit_ok li s0 Hok) as Hr;
      destruct (emit_inv li s0) as (evs & lg' & Hs & Hevs) end.
    match goal with |- context [Train.emit ?f ?li ?s0] =>
      destruct (Train.emit f li s0) as [s1 r] end.
    simpl in *. subst. eexists. split; [done|]. simpl.
    split; [done|]. by rewrite saved_app, (saved_log _ Hevs).
  - rewrite (decide_False (P := frames_per_batch cfg = 0)) by done.
    rewrite (decide_False (P := test_interval cfg = 0)) by done.
    match goal with |- context [Nat.iter ?n ?f ?s0] =>
      destruct (optimization_trace n s0) as (oevs & Htr & Hoevs);
      destruct (optimization_frames n s0) as (Hcf & _);
      remember (Nat.iter n f s0) as s1 end.
    simpl in Hcf, Htr. rewrite Hcf.
    match goal with |- context [Train.emit _ ?li ?s0] =>
      pose proof (emit_ok li s0 Hok) as Hr;
      destruct (emit_inv li s0) as (evs & lg' & Hs & Hevs) end.
    match goal with |- context [Train.emit ?f ?li ?s0] =>
      destruct (Train.emit f li s0) as [s2 r] end.
    simpl in Hr, Hs. subst r s2. eexists. split; [done|]. simpl.
    destruct (checkpoint_due cfg i (collected_frames s + numel data));
      simpl; rewrite ?Hcf, ?Htr, !saved_app, (saved_log _ Hevs),
        (saved_opt _ Hoevs); simpl; rewrite ?app_nil_r; done.
Qed.

Lemma main_loop_saved (batches : list Data) (i : Z) (s : State) :
  (∀ l k st, is_Some (log_scalar l k st)) ->
  frames_per_batch cfg ≠ 0 -> test_interval cfg ≠ 0 ->
  ∃ s', main_loop i batches s = (s', None)
        ∧ saved (trace s')
          = saved (trace s)
            ++ schedule i (collected_frames s) (numel <$> batches).
Proof.
  intros Hok Hfpb Hti. revert i s.
  induction batches as [|data rest IH]; intros i s; simpl.
  - exists s. by rewrite app_nil_r.
  - destruct (loop_body_saved i data s Hok Hfpb Hti)
      as (s1 & -> & Hcf & Hsaved).
    destruct (IH (i + 1) s1) as (s' & -> & Hs').
    exists s'. split; [done|].
    by rewrite Hs', Hsaved, Hcf, <- app_assoc.
Qed.


(** The same without the warm-up gate. *)
Fixpoint due_frames (i collected : Z) (sizes : list Z) : list Z :=
  match sizes with
  | [] => []
  | n :: rest =>
      (if checkpoint_due cfg i (collected + n) then [collected + n] else [])
      ++ due_frames (i + 1) (collected + n) rest
  end.

Lemma schedule_due (sizes : list Z) (i collected : Z) :
  schedule i collected sizes
  = filter (λ c, init_random_frames cfg ≤ c) (due_frames i collected sizes).
Proof.
  revert i collected.
  induction sizes as [|n rest IH]; intros i collected; simpl; [done|].
  rewrite filter_app, IH. f_equal. unfold saves_of.
  destruct (decide (collected + n < init_random_frames cfg)) as [Hw|Ht];
    destruct (checkpoint_due cfg i (collected + n)); try done.
  - rewrite filter_cons_False by lia. done.
  - rewrite filter_cons_True by lia. done.
Qed.

(** *** A raising backend *)

(** The metrics a batch emits: those of the finished episodes, and past the
    warm-up also those of the optimization. *)
Definition episode_log_info (data : Data) : list string :=
  if existsb done data
  then ["train/episode_reward"; "train/episode_length";
        "train/episode_weed_ratio"]
  else [].

Definition batch_log_info (collected : Z) (data : Data) : list string :=
  if decide (collected < init_random_frames cfg) then episode_log_info data
  else
    (episode_log_info data
     ++ ["train/q_loss"; "train/epsilon";
         "train/sampling_time"; "train/training_time"])
    ++ (if use_value_rescale cfg
        then ["train/q_values"; "train/q_logits"]
        else ["train/q_values"]).

Lemma emit_raises (log_info : list string) (s : State) (lg : Logger) (e : exn) :
  logger s = Some lg ->
  (log_items lg log_info (collected_frames s)).2 = Some e ->
  ∃ s', emit log_info s = (s', Some e)
        ∧ collected_frames s' = collected_frames s.
Proof.
  intros Hlg Hfail. unfold Train.emit. rewrite Hlg.
  destruct (log_items lg log_info (collected_frames s)) as [[evs lg'] r].
  simpl in Hfail. subst r. by eexists.
Qed.

Lemma loop_body_raises (i : Z) (data : Data) (s : State) (lg : Logger) (e : exn) :
  logger s = Some lg ->
  (init_random_frames cfg ≤ collected_frames s + numel data ->
   frames_per_batch cfg ≠ 0 ∧ test_interval cfg ≠ 0) ->
  (log_items lg (batch_log_info (collected_frames s + numel data) data)
     (collected_frames s + numel data)).2 = Some e ->
  ∃ s', loop_body i data s = (s', Some e)
        ∧ collected_frames s' = collected_frames s + numel data.
Proof.
  intros Hlg Hcfg Hfail. unfold Train.loop_body, batch_log_info in *.
  cbn [collected_frames greedy_module replay_buffer learner sampler logger
       trace].
  fold (episode_log_info data) in *.
  destruct (decide (collected_frames s + numel data < init_random_frames cfg))
    as [Hwarm|Htrain].
  - match goal with |- context [Train.emit _ ?li ?s0] =>
      destruct (emit_raises li s0 lg e Hlg Hfail) as (s' & -> & Hs') end.
    by exists s'.
  - destruct Hcfg as [Hfpb Hti]; [lia|].
    rewrite (decide_False (P := frames_per_batch cfg = 0)) by done.
    rewrite (decide_False (P := test_interval cfg = 0)) by done.
    match goal with |- context [Nat.iter ?n ?f ?s0] =>
      destruct (optimization_frames n s0) as (Hcf & _ & _ & Hlog);
      remember (Nat.iter n f s0) as s1 end.
    simpl in Hcf, Hlog. rewrite Hcf.
    match goal with |- context [Train.emit _ ?li ?s0] =>
      destruct (emit_raises li s0 lg e) as (s' & -> & Hs') end.
    + destruct (checkpoint_due cfg i (collected_frames s + numel data));
        simpl; congruence.
    + destruct (checkpoint_due cfg i (collected_frames s + numel data));
        simpl; rewrite Hcf; exact Hfail.
    + exists s'. split; [done|]. rewrite Hs'.
      destruct (checkpoint_due cfg i (collected_frames s + numel data));
        simpl; done.
Qed.

End Main.

(** C1 (as amended): with total_frames = 10000, frames_per_batch = 1000 and
    test_interval = 2000, ten batches of 1000 frames and a logging backend
    that does not raise, the loop runs to its end and saves the model at
    the cumulative frame counts 3000, 5000, 7000, 9000 and 10000 (those of
    them that are past the random warm-up): the interval count is taken
    from the batch index times frames_per_batch, which is the number of
    frames collected before the current batch, and the last batch is saved
    because the frame budget is exhausted. *)
Theorem checkpoint_schedule {Obs Params Sampler Logger : Type}
    (draw : Sampler -> ReplayBuffer Obs -> Z -> list nat * Sampler)
    (set_priority : Sampler -> list nat -> Learner Params -> Sampler)
    (optimizer_step : Learner Params -> ReplayBuffer Obs -> list nat -> Params)
    (log_scalar : Logger -> string -> Z -> option Logger)
    (cfg : Config) (model : Params) (rng : Sampler) (lg : option Logger)
    (batches : list (@Data Obs)) :
  total_frames cfg = 10000 ->
  frames_per_batch cfg = 1000 ->
  test_interval cfg = 2000 ->
  numel <$> batches = replicate 10 1000 ->
  (∀ l k st, is_Some (log_scalar l k st)) ->
  ∃ s', main draw set_priority optimizer_step log_scalar cfg model rng lg
          batches = (s', None)
        ∧ saved (trace s')
          = filter (λ c, init_random_frames cfg ≤ c)
              [3000; 5000; 7000; 9000; 10000].
Proof.
  intros Htotal Hfpb Hti Hsizes Hok. unfold main.
  destruct (main_loop_saved draw set_priority optimizer_step log_scalar cfg
              batches 0 (setup cfg model rng lg) Hok)
    as (s' & Hrun & Hsaved); [lia..|].
  exists s'. split; [done|].
  rewrite Hsaved, Hsizes, schedule_due. simpl saved. simpl app.
  f_equal. destruct cfg. simpl in *. subst. reflexivity.
Qed.

Lemma checkpoint_schedule_witness :
  ∃ s', main Demo.draw Demo.set_priority Demo.optimizer_step Demo.log_scalar
          Demo.cfg 0%nat 0%nat (Some []) Demo.batches = (s', None)
        ∧ saved (trace s')
          = filter (λ c, init_random_frames Demo.cfg ≤ c)
              [3000; 5000; 7000; 9000; 10000].
Proof.
  apply (checkpoint_schedule Demo.draw Demo.set_priority Demo.optimizer_step
           Demo.log_scalar Demo.cfg 0%nat 0%nat (Some []) Demo.batches);
    try reflexivity.
  intros l k st. by eexists.
Defined.

(** On the instance above the checkpoints are those of frames 3000, 5000,
    7000, 9000 and 10000, not those of the multiples of the test interval. *)
Lemma checkpoints_not_on_interval_multiples :
  saved (trace (main Demo.draw Demo.set_priority Demo.optimizer_step
                  Demo.log_scalar Demo.cfg 0%nat 0%nat (Some [])
                  Demo.batches).1)
  ≠ [2000; 4000; 6000; 8000; 10000].
Proof.
  assert (saved (trace (main Demo.draw Demo.set_priority Demo.optimizer_step
              Demo.log_scalar Demo.cfg 0%nat 0%nat (Some []) Demo.batches).1)
          = [3000; 5000; 7000; 9000; 10000]) as -> by (vm_compute; reflexivity).
  intros [=].
Qed.

(** C6 (as amended): a failure of the logging backend is not caught.
    When a [log_scalar] call of a batch raises, in the warm-up or past it,
    the error leaves the loop at that batch: [main] ends with the backend's
    error and the remaining batches are not consumed. *)
Theorem logging_failure_propagates {Obs Params Sampler Logger : Type}
    (draw : Sampler -> ReplayBuffer Obs -> Z -> list nat * Sampler)
    (set_priority : Sampler -> list nat -> Learner Params -> Sampler)
    (optimizer_step : Learner Params -> ReplayBuffer Obs -> list nat -> Params)
    (log_scalar : Logger -> string -> Z -> option Logger)
    (cfg : Config) (i : Z) (data : @Data Obs) (rest : list (@Data Obs))
    (s : @State Obs Params Sampler Logger) (lg : Logger) :
  logger s = Some lg ->
  (init_random_frames cfg ≤ collected_frames s + numel data ->
   frames_per_batch cfg ≠ 0 ∧ test_interval cfg ≠ 0) ->
  (@log_items Params Logger log_scalar lg
     (batch_log_info cfg (collected_frames s + numel data) data)
     (collected_frames s + numel data)).2 = Some BackendError ->
  ∃ s', main_loop draw set_priority optimizer_step log_scalar cfg i
          (data :: rest) s = (s', Some BackendError)
        ∧ collected_frames s' = collected_frames s + numel data.
Proof.
  intros Hlg Hcfg Hfail. simpl.
  destruct (loop_body_raises draw set_priority optimizer_step log_scalar cfg
              i data s lg BackendError Hlg Hcfg Hfail)
    as (s' & -> & Hs').
  by exists s'.
Qed.

Lemma logging_failure_propagates_witness :
  ∃ s', main_loop Demo.draw Demo.set_priority Demo.optimizer_step
          Demo.broken_log_scalar Demo.cfg 0
          (replicate 4 Demo.frame :: [replicate 4 Demo.frame])
          (setup Demo.cfg 0%nat 0%nat (Some []))
        = (s', Some BackendError)
        ∧ collected_frames s' = 0 + 4.
Proof.
  apply (logging_failure_propagates Demo.draw Demo.set_priority
           Demo.optimizer_step Demo.broken_log_scalar Demo.cfg 0
           (replicate 4 Demo.frame) [replicate 4 Demo.frame]
           (setup Demo.cfg 0%nat 0%nat (Some [])) []);
    try reflexivity; try done.
Defined.

(** With a backend that raises, the run over the ten batches of the
    instance ends with the backend's error after the first batch. *)
Lemma logging_failure_aborts_training :
  (main Demo.draw Demo.set_priority Demo.optimizer_step
     Demo.broken_log_scalar Demo.cfg 0%nat 0%nat (Some []) Demo.batches).2
  = Some BackendError
  ∧ collected_frames
      (main Demo.draw Demo.set_priority Demo.optimizer_step
         Demo.broken_log_scalar Demo.cfg 0%nat 0%nat (Some [])
         Demo.batches).1 = 1000.
Proof. split; vm_compute; reflexivity. Qed.

Section Priorities.
Context {Obs Params Priority Rng Logger : Type}.
Variable fetch :
  Rng -> gmap nat Priority -> ReplayBuffer Obs -> Z -> list nat * Rng.
Variable new_priority : Learner Params -> Transition Obs -> Priority.
Variable optimizer_step :
  Learner Params -> ReplayBuffer Obs -> list nat -> Params.
Variable log_scalar : Logger -> string -> Z -> option Logger.
Variable cfg : Config.

Local Abbreviation Sampler := (Prioritized.Sampler Obs Priority Rng).
Local Abbreviation State := (@State Obs Params Sampler Logger).
Local Abbreviation optimization_step :=
  (Train.optimization_step (Prioritized.sample fetch)
     (Prioritized.update_tensordict_priority new_priority)
     optimizer_step cfg).
Local Abbreviation main_loop :=
  (Train.main_loop (Prioritized.sample fetch)
     (Prioritized.update_tensordict_priority new_priority)
     optimizer_step log_scalar cfg).

(** One training step with the prioritized sampler: what the priority
    update of the step writes, and where. *)
Lemma optimization_step_priorities (s : State) :
  ∃ batch,
    (Prioritized.sample fetch (sampler s) (replay_buffer s)
       (batch_size cfg)).1 = batch.*1
    ∧ Prioritized.stale
        (Prioritized.sample fetch (sampler s) (replay_buffer s)
           (batch_size cfg)).2
      = Prioritized.stale (sampler s) ++ batch
    ∧ trace (optimization_step s)
      = trace s ++ [Sample batch.*1;
                    TargetStep (learner (optimization_step s));
                    UpdatePriority batch.*1]
    ∧ replay_buffer (optimization_step s) = replay_buffer s
    ∧ (∀ k, k ∈ batch.*1 ->
         ∃ x, (k, x) ∈ batch
              ∧ Prioritized.priority (sampler (optimization_step s)) !! k
                = Some (new_priority (learner s) x))
    ∧ (∀ k, k ∉ batch.*1 ->
         Prioritized.priority (sampler (optimization_step s)) !! k
         = Prioritized.priority (sampler s) !! k)
    ∧ Prioritized.stale (sampler (optimization_step s))
      = filter (λ e, e.1 ∉ batch.*1) (Prioritized.stale (sampler s)).
Proof.
  unfold Train.optimization_step.
  destruct (PrioritizedSpec.sample_spec fetch (sampler s) (replay_buffer s)
              (batch_size cfg)) as (batch & Hkeys & _ & Ht & Ho).
  destruct (Prioritized.sample fetch (sampler s) (replay_buffer s)
              (batch_size cfg)) as [keys smp].
  simpl in Hkeys, Ht, Ho. subst keys. exists batch.
  cbn [trace replay_buffer learner sampler fst snd].
  do 4 (split; [done|]).
  unfold Prioritized.update_tensordict_priority.
  cbn [Prioritized.priority Prioritized.stale].
  rewrite Ho, Ht, foldl_app, filter_app. split; [|split].
  - intros k Hk. by apply PrioritizedSpec.write_priority_key.
  - intros k Hk. by rewrite !PrioritizedSpec.write_priority_other.
  - rewrite (PrioritizedSpec.filter_none _ batch), app_nil_r; [done|].
    apply Forall_forall. intros e He Hne. apply Hne.
    apply list_elem_of_fmap. by exists e.
Qed.

(** What the loop keeps of the sampler as [main] constructs it: outside a
    training step no priority is stale, and the requests waiting are
    within the prefetch depth. *)
Definition sampler_inv (s : State) : Prop :=
  Prioritized.stale (sampler s) = []
  ∧ Prioritized.prefetch (sampler s) = 10%nat
  ∧ (length (Prioritized.queue (sampler s)) < 10)%nat.

Lemma sampler_invariant (batches : list (@Data Obs)) (i : Z) (s : State) :
  sampler_inv s -> sampler_inv (main_loop i batches s).1.
Proof.
  apply (main_loop_invariant _ _ _ _ _ sampler_inv).
  - intros s0 (Ho & Hp & Hq).
    destruct (optimization_step_priorities s0)
      as (batch0 & _ & _ & _ & _ & _ & _ & Ho').
    split; [by rewrite Ho', Ho|].
    unfold Train.optimization_step.
    pose proof (PrioritizedSpec.sample_queue fetch (sampler s0)
                  (replay_buffer s0) (batch_size cfg)) as Hq'.
    destruct (PrioritizedSpec.sample_spec fetch (sampler s0)
                (replay_buffer s0) (batch_size cfg))
      as (batch & _ & Hp' & _ & _).
    destruct (Prioritized.sample fetch (sampler s0) (replay_buffer s0)
                (batch_size cfg)) as [keys' smp].
    simpl in *. rewrite Hp' , Hp in *. split; [done|].
    rewrite Hq' by (simpl; lia). simpl. lia.
  - by intros s0 cf g rb lg evs Hs0 _.
Qed.

End Priorities.

(** C2: with the prioritized sampler as [main] constructs it (prefetch depth
    10, so that a batch may have been drawn up to nine calls before it is
    returned), in every run of [main], also one that an exception ends:
    the calls of [replay_buffer.sample] and [update_tensordict_priority]
    alternate, each returned batch getting one priority update on its own
    keys before the next batch is returned; when the run ends no returned
    transition is left with a stale priority, and fewer requests than the
    prefetch depth are waiting.  In each training step, the store is not
    written between the return of the batch and its priority update, so
    that no later call of [sample] can return one of its keys at a newer
    generation before the update; the update gives every returned key the
    priority computed in this step, from a transition returned under the
    key and the networks the step started with, leaves the priorities of
    all other keys as they were, and ends the staleness of the returned
    transitions. *)
Theorem sample_then_priority_update {Obs Params Priority Rng Logger : Type}
    (fetch :
       Rng -> gmap nat Priority -> ReplayBuffer Obs -> Z -> list nat * Rng)
    (new_priority : Learner Params -> Transition Obs -> Priority)
    (optimizer_step : Learner Params -> ReplayBuffer Obs -> list nat -> Params)
    (log_scalar : Logger -> string -> Z -> option Logger)
    (cfg : Config) (model : Params) (r : Rng) (lg : option Logger)
    (batches : list (@Data Obs)) :
  paired
    (buffer_calls
       (trace (main (Prioritized.sample fetch)
                 (Prioritized.update_tensordict_priority new_priority)
                 optimizer_step log_scalar cfg
                 model (Prioritized.replay_sampler r) lg batches).1))
  ∧ Prioritized.stale
      (sampler (main (Prioritized.sample fetch)
                  (Prioritized.update_tensordict_priority new_priority)
                  optimizer_step log_scalar cfg
                  model (Prioritized.replay_sampler r) lg batches).1) = []
  ∧ (length
       (Prioritized.queue
          (sampler (main (Prioritized.sample fetch)
                      (Prioritized.update_tensordict_priority new_priority)
                      optimizer_step log_scalar cfg
                      model (Prioritized.replay_sampler r) lg batches).1))
     < 10)%nat
  ∧ ∀ s : @State Obs Params (Prioritized.Sampler Obs Priority Rng) Logger,
      ∃ batch,
        (Prioritized.sample fetch (sampler s) (replay_buffer s)
           (batch_size cfg)).1 = batch.*1
        ∧ Prioritized.stale
            (Prioritized.sample fetch (sampler s) (replay_buffer s)
               (batch_size cfg)).2
          = Prioritized.stale (sampler s) ++ batch
        ∧ trace (optimization_step (Prioritized.sample fetch)
                   (Prioritized.update_tensordict_priority new_priority)
                   optimizer_step cfg s)
          = trace s
            ++ [Sample batch.*1;
                TargetStep
                  (learner
                     (optimization_step (Prioritized.sample fetch)
                        (Prioritized.update_tensordict_priority
                           new_priority)
                        optimizer_step cfg s));
                UpdatePriority batch.*1]
        ∧ replay_buffer
            (optimization_step (Prioritized.sample fetch)
               (Prioritized.update_tensordict_priority new_priority)
               optimizer_step cfg s)
          = replay_buffer s
        ∧ (∀ k, k ∈ batch.*1 ->
             ∃ x, (k, x) ∈ batch
                  ∧ Prioritized.priority
                      (sampler
                         (optimization_step (Prioritized.sample fetch)
                            (Prioritized.update_tensordict_priority
                               new_priority)
                            optimizer_step cfg s)) !! k
                    = Some (new_priority (learner s) x))
        ∧ (∀ k, k ∉ batch.*1 ->
             Prioritized.priority
               (sampler
                  (optimization_step (Prioritized.sample fetch)
                     (Prioritized.update_tensordict_priority new_priority)
                     optimizer_step cfg s)) !! k
             = Prioritized.priority (sampler s) !! k)
        ∧ Prioritized.stale
            (sampler
               (optimization_step (Prioritized.sample fetch)
                  (Prioritized.update_tensordict_priority new_priority)
                  optimizer_step cfg s))
          = filter (λ e, e.1 ∉ batch.*1) (Prioritized.stale (sampler s)).
Proof.
  split; [|split; [|split]].
  - unfold main. apply paired_invariant. constructor.
  - unfold main. apply sampler_invariant. repeat split. simpl. lia.
  - unfold main. apply sampler_invariant. repeat split. simpl. lia.
  - apply optimization_step_priorities.
Qed.

Lemma sample_then_priority_update_witness :
  Prioritized.stale
    (sampler (main (Prioritized.sample Demo.fetch)
                (Prioritized.update_tensordict_priority Demo.new_priority)
                Demo.optimizer_step Demo.log_scalar Demo.cfg
                0%nat (Prioritized.replay_sampler 0%nat) None
                Demo.batches).1) = []
  ∧ length
      (buffer_calls
         (trace (main (Prioritized.sample Demo.fetch)
                   (Prioritized.update_tensordict_priority
                      Demo.new_priority)
                   Demo.optimizer_step Demo.log_scalar Demo.cfg
                   0%nat (Prioritized.replay_sampler 0%nat) None
                   Demo.batches).1)) = 40%nat
  ∧ Prioritized.priority
      (sampler (main (Prioritized.sample Demo.fetch)
                  (Prioritized.update_tensordict_priority Demo.new_priority)
                  Demo.optimizer_step Demo.log_scalar Demo.cfg
                  0%nat (Prioritized.replay_sampler 0%nat) None
                  Demo.batches).1) !! 1%nat = Some 18%nat.
Proof.
  split; [|split].
  - exact (proj1 (proj2 (sample_then_priority_update Demo.fetch
                           Demo.new_priority Demo.optimizer_step
                           Demo.log_scalar Demo.cfg 0%nat 0%nat None
                           Demo.batches))).
  - vm_compute. reflexivity.
  - vm_compute. reflexivity.
Defined.

(** C3: with a positive update interval, the target network changes only
    at a hard update.  Listing the networks after each optimizer step of a
    run (with the initial networks first), the step number k+1 is a hard
    update exactly when k+1 is a multiple of [hard_update_freq]; after it
    the target parameters are the online parameters, and after any other
    step they are what they were after the step before. *)
Theorem target_network_hard_update {Obs Params Sampler Logger : Type}
    (draw : Sampler -> ReplayBuffer Obs -> Z -> list nat * Sampler)
    (set_priority : Sampler -> list nat -> Learner Params -> Sampler)
    (optimizer_step : Learner Params -> ReplayBuffer Obs -> list nat -> Params)
    (log_scalar : Logger -> string -> Z -> option Logger)
    (cfg : Config) (model : Params) (rng : Sampler) (lg : option Logger)
    (batches : list (@Data Obs)) (k : nat) (prev cur : Learner Params) :
  0 < hard_update_freq cfg ->
  history (mkLearner model model 0)
    (main draw set_priority optimizer_step log_scalar cfg model rng lg
       batches).1 !! k = Some prev ->
  history (mkLearner model model 0)
    (main draw set_priority optimizer_step log_scalar cfg model rng lg
       batches).1 !! S k = Some cur ->
  counter cur = (Z.of_nat k + 1) `mod` hard_update_freq cfg
  ∧ if decide ((Z.of_nat k + 1) `mod` hard_update_freq cfg = 0)
    then target cur = online cur
    else target cur = target prev.
Proof.
  intros Hf. unfold main.
  destruct (target_invariant draw set_priority optimizer_step log_scalar cfg
              (mkLearner model model 0) batches 0
              (setup cfg model rng lg) Hf) as (_ & _ & Hok).
  - split; [done|]. split; [by rewrite Z.mod_0_l by lia|].
    intros j p c _ Hc. destruct j; done.
  - apply Hok.
Qed.

Lemma target_network_hard_update_witness :
  counter (mkLearner 3%nat 3%nat 0)
    = (Z.of_nat 2 + 1) `mod` hard_update_freq Demo.cfg
  ∧ if decide ((Z.of_nat 2 + 1) `mod` hard_update_freq Demo.cfg = 0)
    then target (mkLearner 3%nat 3%nat 0) = online (mkLearner 3%nat 3%nat 0)
    else target (mkLearner 3%nat 3%nat 0) = target (mkLearner 2%nat 0%nat 2).
Proof.
  apply (target_network_hard_update Demo.draw Demo.set_priority
           Demo.optimizer_step Demo.log_scalar Demo.cfg 0%nat 0%nat None
           [[Demo.frame; Demo.frame]; [Demo.frame; Demo.frame]] 2
           (mkLearner 2%nat 0%nat 2) (mkLearner 3%nat 3%nat 0));
    reflexivity.
Defined.



(** C5 (as amended): with the 3-step transform configured (nstep = 3,
    gamma = 1/2), three consecutive transitions with rewards 1, 2 and 3
    are folded before insertion into one transition whose reward is
    1 + 0.5*2 + 0.25*3 = 2.75, whose next observation is the one reached by
    the third step, and whose done flag is set when any of the three steps
    was terminal. *)
Theorem nstep_fold_three {Obs Params Sampler Logger : Type}
    (cfg : Config) (model : Params) (rng : Sampler) (lg : option Logger)
    (o1 o2 o3 n1 n2 n3 : Obs) (a1 a2 a3 : nat) (d1 d2 d3 : bool) :
  nstep cfg = 3 -> gamma cfg = Q2Qc (1 # 2) -> (1 ≤ buffer_size cfg)%nat ->
  contents
    (Replay.extend
       (replay_buffer (@setup Obs Params Sampler Logger cfg model rng lg))
       [mkTransition o1 a1 1%Qc n1 d1;
        mkTransition o2 a2 (Q2Qc 2) n2 d2;
        mkTransition o3 a3 (Q2Qc 3) n3 d3])
  = [mkTransition o1 a1 (Q2Qc (11 # 4)) n3 (d1 || d2 || d3)].
Proof.
  intros Hn Hg Hcap. unfold setup. cbn [replay_buffer].
  rewrite Hn, Hg. rewrite decide_True by lia.
  unfold Replay.extend. cbn [transform Replay.empty].
  change (Z.to_nat 3) with 3%nat.
  rewrite ReplaySpec.multi_step_three.
  by apply ReplaySpec.write_first.
Qed.

Lemma nstep_fold_three_witness :
  contents
    (Replay.extend
       (replay_buffer (@setup nat nat nat unit Demo.nstep_cfg 0%nat 0%nat None))
       [mkTransition 10%nat 0 1%Qc 11%nat false;
        mkTransition 11%nat 1 (Q2Qc 2) 12%nat true;
        mkTransition 12%nat 0 (Q2Qc 3) 13%nat false])
  = [mkTransition 10%nat 0 (Q2Qc (11 # 4)) 13%nat (false || true || false)].
Proof.
  apply (nstep_fold_three Demo.nstep_cfg 0%nat 0%nat None); try reflexivity.
  simpl. lia.
Defined.

(** The folded reward of the three transitions is not 3.25. *)
Lemma nstep_reward_is_not_3_25 :
  reward <$>
    contents
      (Replay.extend
         (replay_buffer (@setup nat nat nat unit Demo.nstep_cfg 0%nat 0%nat None))
         [mkTransition 10%nat 0 1%Qc 11%nat false;
          mkTransition 11%nat 1 (Q2Qc 2) 12%nat false;
          mkTransition 12%nat 0 (Q2Qc 3) 13%nat false])
  ≠ [Q2Qc (13 # 4)].
Proof.
  unfold setup. cbn [replay_buffer]. rewrite decide_True by done.
  unfold Replay.extend. cbn [transform Replay.empty nstep gamma Demo.nstep_cfg].
  change (Z.to_nat 3) with 3%nat.
  rewrite ReplaySpec.multi_step_three, ReplaySpec.write_first
    by (simpl; lia).
  intros H. apply (f_equal (fmap this)) in H. vm_compute in H.
  discriminate H.
Qed.

End TrainSpec.

(** ** More on the encoder: construction errors and argument shapes *)

Module ConvEncoderMore.
Import Torch ConvEncoder.

Lemma split_last_inv (s lead : shape) (d : nat) :
  split_last s = Some (lead, d) -> s = lead ++ [d].
Proof.
  revert lead. induction s as [|x s IH]; intros lead; simpl; [done|].
  destruct (split_last s) as [[l z]|] eqn:E.
  - intros [= <- <-]. simpl. f_equal. by apply IH.
  - intros [= <- <-]. destruct s as [|y s]; [done|].
    simpl in E. by destruct (split_last s) as [[? ?]|].
Qed.

(** The loop over [cnn_channels] reads [kernel_sizes[i]] and [strides[i]] for
    every index of [cnn_channels] and nothing beyond. *)
Lemma build_layers_is_Some (ks ss chans : list nat) (in_ch i : nat) :
  is_Some (build_layers ks ss in_ch i chans)
  ↔ chans = [] ∨ (i + length chans ≤ length ks ∧ i + length chans ≤ length ss).
Proof.
  revert in_ch i. induction chans as [|c rest IH]; intros in_ch i; simpl.
  - split; [by left|by eexists].
  - split.
    + intros [layers H].
      destruct (ks !! i) as [k|] eqn:Hk; simpl in H; [|done].
      destruct (ss !! i) as [st|] eqn:Hs; simpl in H; [|done].
      destruct (build_layers ks ss c (S i) rest) as [ls|] eqn:Hb;
        simpl in H; [|done].
      apply lookup_lt_Some in Hk, Hs. right.
      destruct (proj1 (IH c (S i)) ltac:(by rewrite Hb)) as [->|[? ?]];
        simpl; lia.
    + intros [?|[Hk Hs]]; [done|].
      destruct (lookup_lt_is_Some_2 ks i ltac:(lia)) as [k ->].
      destruct (lookup_lt_is_Some_2 ss i ltac:(lia)) as [st ->]. simpl.
      destruct (proj2 (IH c (S i))) as [ls ->]; [|by eexists].
      destruct rest; [by left|right; simpl in *; lia].
Qed.

Lemma build_layers_fields (ks ss chans : list nat) (in_ch i : nat)
    (layers : list Block) :
  build_layers ks ss in_ch i chans = Some layers ->
  out_channels <$> layers = chans
  ∧ in_channels <$> layers = take (length chans) (in_ch :: chans)
  ∧ kernel_size <$> layers = take (length chans) (drop i ks)
  ∧ stride <$> layers = take (length chans) (drop i ss).
Proof.
  revert in_ch i layers.
  induction chans as [|c rest IH]; intros in_ch i layers; simpl.
  - by intros [= <-].
  - destruct (ks !! i) as [k|] eqn:Hk; simpl; [|done].
    destruct (ss !! i) as [st|] eqn:Hs; simpl; [|done].
    destruct (build_layers ks ss c (S i) rest) as [ls|] eqn:Hb;
      simpl; [|done].
    intros [= <-]. destruct (IH _ _ _ Hb) as (Ho & Hi & Hks & Hss).
    rewrite (drop_S ks k i Hk), (drop_S ss st i Hs). simpl.
    change (list_fmap Block nat ?f ls) with (f <$> ls).
    by rewrite Ho, Hi, Hks, Hss.
Qed.

Section WithBlock.
Variable conv_net_block : Block -> nat * nat * nat -> option (nat * nat * nat).

(** X1: too few kernel sizes or strides for the channels: the constructor fails
    (IndexError), whatever the raster shape and the blocks do. *)
Theorem init_short_lists (raster_shape cnn_channels kernel_sizes strides
    : list nat) (vec_dim vec_out : nat) :
  length kernel_sizes < length cnn_channels
  ∨ length strides < length cnn_channels ->
  init conv_net_block raster_shape cnn_channels kernel_sizes strides
    vec_dim vec_out = None.
Proof.
  intros Hshort. unfold init.
  destruct (raster_shape !! 0) as [in_ch|]; simpl; [|done].
  destruct (build_layers kernel_sizes strides in_ch 0 cnn_channels)
    as [layers|] eqn:Hb; simpl; [|done].
  destruct (proj1 (build_layers_is_Some kernel_sizes strides cnn_channels
                     in_ch 0) ltac:(by rewrite Hb)) as [->|[? ?]];
    simpl in *; lia.
Qed.

(** X2: a constructed encoder has one block per entry of [cnn_channels]: block i
    maps [cnn_channels[i-1]] channels (the raster's first dimension for
    i = 0) to [cnn_channels[i]] with [kernel_sizes[i]] and [strides[i]];
    surplus kernel sizes and strides are not used. *)
Theorem init_layers (raster_shape cnn_channels kernel_sizes strides
    : list nat) (vec_dim vec_out : nat) (enc : t) (probes : list shape) :
  init conv_net_block raster_shape cnn_channels kernel_sizes strides
    vec_dim vec_out = Some (enc, probes) ->
  ∃ in_ch, raster_shape !! 0 = Some in_ch
    ∧ out_channels <$> cnn_layers enc = cnn_channels
    ∧ in_channels <$> cnn_layers enc
      = take (length cnn_channels) (in_ch :: cnn_channels)
    ∧ kernel_size <$> cnn_layers enc
      = take (length cnn_channels) kernel_sizes
    ∧ stride <$> cnn_layers enc = take (length cnn_channels) strides
    ∧ post_out_features enc = vec_out.
Proof.
  unfold init. intros H.
  destruct (raster_shape !! 0) as [in_ch|]; simpl in H; [|done].
  destruct (build_layers kernel_sizes strides in_ch 0 cnn_channels)
    as [layers|] eqn:Hb; simpl in H; [|done].
  destruct (cnn_encoder conv_net_block layers _) as [out|]; simpl in H;
    [|done].
  destruct (size out 1) as [f|]; simpl in H; [|done].
  injection H as <- _. exists in_ch. split; [done|]. simpl.
  destruct (build_layers_fields _ _ _ _ _ _ Hb) as (Ho & Hi & Hk & Hs).
  by rewrite Ho, Hi, Hk, Hs.
Qed.

Lemma apply_blocks_ndim (layers : list Block) (s s' : shape) :
  apply_blocks conv_net_block layers s = Some s' -> length s' = length s.
Proof.
  revert s. induction layers as [|b rest IH]; intros s; simpl.
  - by intros [= <-].
  - destruct s as [|n [|c [|h [|w [|? ?]]]]]; simpl; try done.
    + destruct (conv_net_block b (n, c, h)) as [[[c' h'] w']|]; simpl;
        [|done].
      intros H. by rewrite (IH _ H).
    + destruct (conv_net_block b (c, h, w)) as [[[c' h'] w']|]; simpl;
        [|done].
      intros H. by rewrite (IH _ H).
Qed.

(** X3: the constructor needs a raster shape of at least three dimensions: with
    fewer, the flattened dummy output has no dimension 1 to read the width
    from (or the blocks reject the input). *)
Theorem init_raster_ndim (raster_shape cnn_channels kernel_sizes strides
    : list nat) (vec_dim vec_out : nat) (enc : t) (probes : list shape) :
  init conv_net_block raster_shape cnn_channels kernel_sizes strides
    vec_dim vec_out = Some (enc, probes) ->
  3 ≤ length raster_shape.
Proof.
  unfold init. intros H.
  destruct (raster_shape !! 0) as [in_ch|]; simpl in H; [|done].
  destruct (build_layers kernel_sizes strides in_ch 0 cnn_channels)
    as [layers|]; simpl in H; [|done].
  destruct (decide (3 ≤ length raster_shape)) as [|Hlt]; [done|exfalso].
  rewrite decide_True in H by (unfold ndim; lia).
  unfold cnn_encoder in H.
  destruct (apply_blocks conv_net_block layers (unsqueeze0 raster_shape))
    as [s'|] eqn:Hs; simpl in H; [|done].
  apply apply_blocks_ndim in Hs. unfold unsqueeze0 in Hs. simpl in Hs.
  unfold squash_dims in H.
  destruct s' as [|a [|b [|c [|? ?]]]]; simpl in *; try done; lia.
Qed.

(** X4: on a raster of the declared shape, [forward] with a vector succeeds in
    exactly three cases.  The vector has the raster's leading dimensions
    and length [vec_dim].  Or the vector has shape [0] and [vec_dim] is 0:
    the concatenation skips the vector.  Or the raster is unbatched and the
    convolutional stack leaves an embedding of shape [0]: the concatenation
    skips the embedding, and the vector may have any leading dimensions
    before a last dimension [vec_dim].  Any other vector is rejected by the
    concatenation or by the projection layer.  The result has last
    dimension [vec_out]. *)
Theorem forward_vector_shape (c h w : nat)
    (cnn_channels kernel_sizes strides : list nat)
    (vec_dim vec_out : nat) (enc : t) (probes : list shape)
    (lead vector out : shape) :
  init conv_net_block [c; h; w] cnn_channels kernel_sizes strides
    vec_dim vec_out = Some (enc, probes) ->
  length lead ≤ 1 ->
  forward conv_net_block enc (lead ++ [c; h; w]) (Some vector) = Some out
  ↔ (vector = lead ++ [vec_dim] ∧ out = lead ++ [vec_out])
    ∨ (vector = [0] ∧ vec_dim = 0 ∧ out = lead ++ [vec_out])
    ∨ (lead = [] ∧
       cnn_encoder conv_net_block (cnn_layers enc) [c; h; w] = Some [0] ∧
       ∃ lv, vector = lv ++ [vec_dim] ∧ out = lv ++ [vec_out]).
Proof.
  intros Hinit Hlead.
  destruct (ConvEncoderSpec.init_inv _ _ _ _ _ _ _ _ _ _ _ Hinit)
    as (chw & Hchw & Hin & Hout & _).
  assert (cnn_encoder conv_net_block (cnn_layers enc) [c; h; w]
          = Some [ConvEncoderSpec.flat chw]) as Hflat.
  { change [c; h; w] with ([] ++ [c; h; w]).
    rewrite ConvEncoderSpec.cnn_encoder_batch by (simpl; lia).
    by rewrite Hchw. }
  unfold forward.
  rewrite ConvEncoderSpec.cnn_encoder_batch by done. rewrite Hchw. simpl.
  unfold post_encoder. rewrite Hin, Hout. split.
  - destruct (split_last vector) as [[lb db]|] eqn:Ev;
      [|unfold concatenate_last;
        by rewrite Ev, ConvEncoderSpec.split_last_snoc].
    pose proof (split_last_inv _ _ _ Ev) as ->.
    destruct (decide (lead ++ [ConvEncoderSpec.flat chw] = [0])) as [He|He].
    { rewrite He,
        (ConvEncoderSpec.concatenate_last_skip_l _ _ _ Ev). simpl.
      rewrite ConvEncoderSpec.linear_snoc. case_decide; [|done].
      intros [= <-]. right. right.
      assert (lead = [] ∧ ConvEncoderSpec.flat chw = 0) as [-> Hz]
        by (by destruct lead as [|? [|? ?]]; simplify_eq/=).
      rewrite Hflat, Hz. do 2 (split; [done|]). exists lb.
      split; [|done]. do 2 f_equal. lia. }
    destruct (decide (lb ++ [db] = [0])) as [Hv|Hv].
    { rewrite Hv, (ConvEncoderSpec.concatenate_last_skip_r _ lead
                       (ConvEncoderSpec.flat chw))
        by apply ConvEncoderSpec.split_last_snoc. simpl.
      rewrite ConvEncoderSpec.linear_snoc. case_decide; [|done].
      intros [= <-]. right. left. split; [done|]. split; [lia|done]. }
    rewrite ConvEncoderSpec.concatenate_last_keep by done.
    destruct (decide (lead = lb)) as [<-|]; [|done]. simpl.
    rewrite ConvEncoderSpec.linear_snoc. case_decide; [|done].
    intros [= <-]. left. split; [|done]. do 2 f_equal. lia.
  - intros [[-> ->]|[(-> & -> & ->)|(-> & He & lv & -> & ->)]].
    + rewrite ConvEncoderSpec.concatenate_last_snoc. simpl.
      rewrite ConvEncoderSpec.linear_snoc. by rewrite decide_True by lia.
    + rewrite (ConvEncoderSpec.concatenate_last_skip_r _ lead (ConvEncoderSpec.flat chw))
        by apply ConvEncoderSpec.split_last_snoc. simpl.
      rewrite ConvEncoderSpec.linear_snoc. by rewrite decide_True by lia.
    + rewrite Hflat in He. injection He as He. simpl. rewrite He.
      rewrite (ConvEncoderSpec.concatenate_last_skip_l _ lv vec_dim)
        by apply ConvEncoderSpec.split_last_snoc. simpl.
      rewrite ConvEncoderSpec.linear_snoc. by rewrite decide_True by lia.
Qed.

End WithBlock.

Lemma init_short_lists_witness :
  init plain_conv [3; 16; 16] [16; 32; 64] [8; 4] [1; 1; 1] 14 256 = None.
Proof.
  apply (init_short_lists plain_conv [3; 16; 16] [16; 32; 64] [8; 4]
           [1; 1; 1] 14 256).
  left. simpl. lia.
Defined.

Lemma init_layers_witness :
  ∃ in_ch, [3; 16; 16] !! 0 = Some in_ch
    ∧ out_channels <$>
        cnn_layers (mk [mkBlock 3 16 8 1; mkBlock 16 32 4 1] 1166 256)
      = [16; 32]
    ∧ in_channels <$>
        cnn_layers (mk [mkBlock 3 16 8 1; mkBlock 16 32 4 1] 1166 256)
      = take (length [16; 32]) (in_ch :: [16; 32])
    ∧ kernel_size <$>
        cnn_layers (mk [mkBlock 3 16 8 1; mkBlock 16 32 4 1] 1166 256)
      = take (length [16; 32]) [8; 4; 3]
    ∧ stride <$>
        cnn_layers (mk [mkBlock 3 16 8 1; mkBlock 16 32 4 1] 1166 256)
      = take (length [16; 32]) [1; 1; 1]
    ∧ post_out_features
        (mk [mkBlock 3 16 8 1; mkBlock 16 32 4 1] 1166 256) = 256.
Proof.
  apply (init_layers plain_conv [3; 16; 16] [16; 32] [8; 4; 3] [1; 1; 1]
           14 256 _ [[1; 3; 16; 16]]).
  reflexivity.
Defined.

Lemma init_raster_ndim_witness : 3 ≤ length [3; 16; 16].
Proof.
  apply (init_raster_ndim plain_conv [3; 16; 16] [16; 32; 64] [8; 4; 3]
           [1; 1; 1] 14 256
           (mk [mkBlock 3 16 8 1; mkBlock 16 32 4 1; mkBlock 32 64 3 1]
              1038 256)
           [[1; 3; 16; 16]]).
  reflexivity.
Defined.

Lemma forward_vector_shape_witness :
  forward plain_conv
    (mk [mkBlock 3 16 8 1; mkBlock 16 32 4 1; mkBlock 32 64 3 1] 1024 256)
    [5; 3; 16; 16] (Some [0]) = Some [5; 256].
Proof.
  refine (proj2 (forward_vector_shape plain_conv 3 16 16 [16; 32; 64]
                   [8; 4; 3] [1; 1; 1] 0 256
                   (mk [mkBlock 3 16 8 1; mkBlock 16 32 4 1;
                        mkBlock 32 64 3 1] 1024 256)
                   [[1; 3; 16; 16]] [5] [0] [5; 256] _ _) _);
    [reflexivity | simpl; lia | right; left; done].
Defined.

End ConvEncoderMore.

(** ** Checkpoint file names *)

Module CheckpointSpec.
Import Checkpoint.
Local Open Scope Z_scope.

Lemma append_nil (s : string) : "" +:+ s = s.
Proof. reflexivity. Qed.

Lemma append_cons (c : ascii) (a s : string) :
  String c a +:+ s = String c (a +:+ s).
Proof. reflexivity. Qed.

Lemma length_append (a b : string) :
  String.length (a +:+ b) = (String.length a + String.length b)%nat.
Proof.
  induction a as [|c a IH]; [done|].
  rewrite append_cons. simpl. by rewrite IH.
Qed.

Lemma append_inj_r (t a b : string) : a +:+ t = b +:+ t -> a = b.
Proof.
  revert b. induction a as [|c a IH]; intros [|d b] H.
  - done.
  - apply (f_equal String.length) in H.
    rewrite !length_append in H. simpl in H. lia.
  - apply (f_equal String.length) in H.
    rewrite !length_append in H. simpl in H. lia.
  - rewrite !append_cons in H. injection H as -> H. f_equal. by apply IH.
Qed.

(** Reading a zero-padded numeral back. *)
Lemma uint_of_fill (k : nat) (s : string) :
  NilEmpty.uint_of_string (fill k "0"%char +:+ s)
  = Nat.iter k D0 <$> NilEmpty.uint_of_string s.
Proof.
  induction k as [|k IH].
  - cbn [fill]. rewrite append_nil.
    by destruct (NilEmpty.uint_of_string s).
  - cbn [fill]. rewrite append_cons. cbn [NilEmpty.uint_of_string].
    rewrite IH. by destruct (NilEmpty.uint_of_string s).
Qed.

Lemma of_uint_zeros (k : nat) (d : uint) :
  Z.of_uint (Nat.iter k D0 d) = Z.of_uint d.
Proof. induction k as [|k IH]; simpl; [done|]. exact IH. Qed.

Lemma py_str_digits (n : Z) :
  0 ≤ n ->
  ∃ d, NilEmpty.uint_of_string (py_str n) = Some d ∧ Z.of_uint d = n.
Proof.
  intros Hn. destruct n as [|p|p]; [| |lia].
  - by exists (D0 Nil).
  - exists (Pos.to_uint p). unfold py_str. simpl.
    split.
    + replace (NilZero.string_of_uint (Pos.to_uint p))
        with (NilEmpty.string_of_uint (Pos.to_uint p))
        by (pose proof (Unsigned.to_uint_nonnil p);
            by destruct (Pos.to_uint p)).
      apply NilEmpty.usu.
    + exact (DecimalZ.of_to (Z.pos p)).
Qed.

Lemma rjust_fill (w : nat) (s : string) :
  ∃ k, rjust w "0"%char s = fill k "0"%char +:+ s.
Proof.
  unfold rjust. case_decide; [by eexists|]. by exists 0%nat.
Qed.

(** The digits of a model name read back as the number of thousands. *)
Lemma model_name_value (c : Z) :
  0 ≤ c ->
  Z.of_uint <$> NilEmpty.uint_of_string (model_name c) = Some (c / 1000).
Proof.
  intros Hc. unfold model_name.
  destruct (rjust_fill 5 (py_str (c / 1000))) as [k ->].
  destruct (py_str_digits (c / 1000)) as (d & Hd & Hv).
  { apply Z.div_pos; lia. }
  rewrite uint_of_fill, Hd. simpl. by rewrite of_uint_zeros, Hv.
Qed.

Lemma checkpoint_file_eq (base_dir dir : string) (a b : Z) :
  0 ≤ a -> 0 ≤ b ->
  checkpoint_file base_dir dir a = checkpoint_file base_dir dir b
  ↔ a / 1000 = b / 1000.
Proof.
  intros Ha Hb. split.
  - unfold checkpoint_file. intros H.
    repeat (apply String.app_inj in H || apply append_inj_r in H).
    apply (f_equal (λ s, Z.of_uint <$> NilEmpty.uint_of_string s)) in H.
    rewrite !model_name_value in H by done. by injection H.
  - intros H. unfold checkpoint_file, model_name. by rewrite H.
Qed.

End CheckpointSpec.

(** ** More on the training loop: what one batch does *)

Module TrainMore.
Import Replay Target Train.
Local Open Scope Z_scope.

Section Main.
Context {Obs Params Sampler Logger : Type}.
Variable draw : Sampler -> ReplayBuffer Obs -> Z -> list nat * Sampler.
Variable set_priority : Sampler -> list nat -> Learner Params -> Sampler.
Variable optimizer_step :
  Learner Params -> ReplayBuffer Obs -> list nat -> Params.
Variable log_scalar : Logger -> string -> Z -> option Logger.
Variable cfg : Config.

Local Abbreviation State := (@State Obs Params Sampler Logger).
Local Abbreviation Data := (@Train.Data Obs).
Local Abbreviation Event := (@Event Params).
Local Abbreviation emit :=
  (@Train.emit Obs Params Sampler Logger log_scalar).
Local Abbreviation log_items := (@Train.log_items Params Logger log_scalar).
Local Abbreviation optimization_step :=
  (Train.optimization_step draw set_priority optimizer_step cfg).
Local Abbreviation loop_body :=
  (Train.loop_body draw set_priority optimizer_step log_scalar cfg).
Local Abbreviation main_loop :=
  (Train.main_loop draw set_priority optimizer_step log_scalar cfg).
Local Abbreviation is_opt := (@TrainSpec.is_opt Params).
Local Abbreviation is_log := (@TrainSpec.is_log Params).

(** The state after the bookkeeping at the head of the loop body: frame
    counter, exploration schedule and replay buffer. *)
Definition advance (data : Data) (s : State) : State :=
  mkState (collected_frames s + numel data)
    (Exploration.step (numel data) (greedy_module s))
    (Replay.extend (replay_buffer s) data)
    (learner s) (sampler s) (logger s) (trace s).

(** The frames of a list of batches. *)
Definition frames (batches : list Data) : Z :=
  foldr (λ data acc, numel data + acc) 0 batches.

(** The three ways through the loop body. *)
Lemma loop_body_warm (i : Z) (data : Data) (s : State) :
  collected_frames s + numel data < init_random_frames cfg ->
  loop_body i data s
  = emit (TrainSpec.episode_log_info data) (advance data s).
Proof.
  intros Hwarm. unfold Train.loop_body, advance.
  cbn [collected_frames greedy_module replay_buffer learner sampler logger
       trace].
  by rewrite decide_True by done.
Qed.

Lemma loop_body_zero (i : Z) (data : Data) (s : State) :
  init_random_frames cfg ≤ collected_frames s + numel data ->
  frames_per_batch cfg = 0 ∨ test_interval cfg = 0 ->
  loop_body i data s
  = (Nat.iter (num_updates cfg) optimization_step (advance data s),
     Some ZeroDivisionError).
Proof.
  intros Htrain Hzero. unfold Train.loop_body, advance.
  cbn [collected_frames greedy_module replay_buffer learner sampler logger
       trace].
  rewrite decide_False by lia.
  destruct (decide (frames_per_batch cfg = 0)); [done|].
  destruct (decide (test_interval cfg = 0)); [done|]. by destruct Hzero.
Qed.

Lemma loop_body_train (i : Z) (data : Data) (s : State) :
  init_random_frames cfg ≤ collected_frames s + numel data ->
  frames_per_batch cfg ≠ 0 -> test_interval cfg ≠ 0 ->
  loop_body i data s
  = let s1 := Nat.iter (num_updates cfg) optimization_step (advance data s) in
    let s2 := if checkpoint_due cfg i (collected_frames s + numel data)
              then record s1 [Save (collected_frames s + numel data)]
              else s1 in
    match emit (TrainSpec.batch_log_info cfg
                  (collected_frames s + numel data) data) s2 with
    | (s3, None) => (record s3 [UpdatePolicyWeights], None)
    | (s3, Some e) => (s3, Some e)
    end.
Proof.
  intros Htrain Hfpb Hti.
  unfold Train.loop_body, advance, TrainSpec.batch_log_info,
    TrainSpec.episode_log_info.
  cbn [collected_frames greedy_module replay_buffer learner sampler logger
       trace].
  rewrite !(decide_False (P := _ < _)) by lia.
  rewrite (decide_False (P := frames_per_batch cfg = 0)) by done.
  rewrite (decide_False (P := test_interval cfg = 0)) by done.
  destruct (TrainSpec.optimization_frames draw set_priority optimizer_step
              cfg (num_updates cfg)
              (mkState (collected_frames s + numel data)
                 (Exploration.step (numel data) (greedy_module s))
                 (Replay.extend (replay_buffer s) data)
                 (learner s) (sampler s) (logger s) (trace s)))
    as (Hcf & _).
  cbn [collected_frames] in Hcf. cbv zeta. by rewrite !Hcf.
Qed.

(** The [log_scalar] calls of one emission that went through. *)
Definition logged (keys : list string) (step : Z) : list Event :=
  (λ key, LogScalar key step) <$> keys.

Lemma log_items_shape (keys : list string) (lg : Logger) (step : Z) :
  ∃ sent,
    (log_items lg keys step).1.1 = logged sent step
    ∧ sent `prefix_of` keys
    ∧ ((log_items lg keys step).2 = None -> sent = keys)
    ∧ ((log_items lg keys step).2 = None
       ∨ (log_items lg keys step).2 = Some BackendError).
Proof.
  revert lg. induction keys as [|key rest IH]; intros lg; simpl.
  - exists []. split; [done|]. split; [done|]. split; [done|]. by left.
  - destruct (log_scalar lg key step) as [lg'|]; simpl.
    + destruct (IH lg') as (sent & Hev & Hpre & Hall & Hexn).
      destruct (log_items lg' rest step) as [[evs lg''] r]. simpl in *.
      exists (key :: sent). rewrite Hev. split; [done|].
      split; [by apply prefix_cons|]. split; [|done].
      intros Hr. by rewrite Hall.
    + exists []. split; [done|]. split; [apply prefix_nil|].
      split; [done|]. by right.
Qed.

Lemma emit_shape (log_info : list string) (s : State) :
  ∃ sent lg',
    (emit log_info s).1
    = mkState (collected_frames s) (greedy_module s) (replay_buffer s)
        (learner s) (sampler s) lg'
        (trace s ++ logged sent (collected_frames s))
    ∧ sent `prefix_of` log_info
    ∧ (logger s = None ->
       sent = [] ∧ lg' = None ∧ (emit log_info s).2 = None)
    ∧ (is_Some (logger s) -> (emit log_info s).2 = None -> sent = log_info)
    ∧ ((emit log_info s).2 = None
       ∨ (emit log_info s).2 = Some BackendError).
Proof.
  unfold Train.emit. destruct s as [cf g rb l smp [lg|] tr]; simpl.
  - destruct (log_items_shape log_info lg cf)
      as (sent & Hev & Hpre & Hall & Hexn).
    destruct (log_items lg log_info cf) as [[evs lg'] r]. simpl in *.
    exists sent, (Some lg'). rewrite Hev. split; [done|]. split; [done|].
    split; [done|]. split; [|done]. intros _ Hr. by apply Hall.
  - exists [], None. rewrite app_nil_r. split; [done|].
    split; [apply prefix_nil|]. split; [done|]. split; [|by left].
    by intros [? ?].
Qed.

Lemma optimization_events (n : nat) (s : State) :
  ∃ evs, trace (Nat.iter n optimization_step s) = trace s ++ evs
         ∧ Forall is_opt evs
         ∧ length (snapshots evs) = n.
Proof.
  induction n as [|n (evs & IH & Hevs & Hlen)]; simpl.
  - exists []. by rewrite app_nil_r.
  - destruct (TrainSpec.optimization_step_trace draw set_priority
                optimizer_step cfg (Nat.iter n optimization_step s))
      as (keys & l & -> & _).
    rewrite IH, <- app_assoc. eexists. split; [done|]. split.
    + apply Forall_app. split; [done|]. by repeat constructor.
    + rewrite TrainSpec.snapshots_app, length_app, Hlen. simpl. lia.
Qed.

(** The events of one batch, whichever way the body is left: the
    optimization steps, at most one checkpoint, the metrics that went
    through, at most one refresh of the collector's weights; checkpoint
    and metrics carry the frame count reached with this batch. *)
Lemma loop_body_shape (i : Z) (data : Data) (s : State) :
  ∃ oevs sevs sent uevs,
    trace (loop_body i data s).1
    = trace s ++ oevs ++ sevs
        ++ logged sent (collected_frames s + numel data) ++ uevs
    ∧ Forall is_opt oevs
    ∧ (sevs = [] ∨ sevs = [Save (collected_frames s + numel data)])
    ∧ (uevs = [] ∨ uevs = [UpdatePolicyWeights])
    ∧ (logger s = None ->
       sent = [] ∧ logger (loop_body i data s).1 = None
       ∧ (loop_body i data s).2 ≠ Some BackendError).
Proof.
  destruct (decide (collected_frames s + numel data
                    < init_random_frames cfg)) as [Hwarm|Htrain].
  { rewrite loop_body_warm by done.
    destruct (emit_shape (TrainSpec.episode_log_info data) (advance data s))
      as (sent & lg' & Hs & _ & Hnone & _).
    exists [], [], sent, []. rewrite Hs. simpl. rewrite app_nil_r.
    split; [done|]. split; [done|]. split; [by left|]. split; [by left|].
    intros Hlg. destruct (Hnone Hlg) as (-> & -> & ->). done. }
  destruct (TrainSpec.optimization_frames draw set_priority optimizer_step
              cfg (num_updates cfg) (advance data s))
    as (Hcf & _ & _ & Hlog).
  destruct (optimization_events (num_updates cfg) (advance data s))
    as (oevs & Htr & Hoevs & _).
  cbn [advance collected_frames logger trace] in Hcf, Hlog, Htr.
  destruct (decide (frames_per_batch cfg = 0 ∨ test_interval cfg = 0))
    as [Hzero|Hnz].
  { rewrite loop_body_zero by (done || lia).
    exists oevs, [], [], []. simpl. rewrite Htr, app_nil_r.
    split; [done|]. split; [done|]. split; [by left|]. split; [by left|].
    intros Hlg. rewrite Hlog. done. }
  rewrite loop_body_train by (lia || tauto). cbv zeta.
  set (s1 := Nat.iter (num_updates cfg) optimization_step (advance data s))
    in *.
  set (c := collected_frames s + numel data) in *.
  set (s2 := if checkpoint_due cfg i c then record s1 [Save c] else s1).
  assert (∃ sevs, trace s2 = trace s1 ++ sevs
                  ∧ (sevs = [] ∨ sevs = [Save c])
                  ∧ collected_frames s2 = c ∧ logger s2 = logger s)
    as (sevs & Htr2 & Hsevs & Hcf2 & Hlog2).
  { unfold s2. destruct (checkpoint_due cfg i c).
    - exists [Save c]. simpl. split; [done|]. split; [by right|]. done.
    - exists []. rewrite app_nil_r. split; [done|]. split; [by left|]. done. }
  destruct (emit_shape (TrainSpec.batch_log_info cfg c data) s2)
    as (sent & lg' & Hs3 & _ & Hnone & _ & Hexn).
  destruct (emit (TrainSpec.batch_log_info cfg c data) s2) as [s3 r].
  simpl in Hs3, Hnone, Hexn. subst s3. rewrite Hcf2, Htr2, Htr.
  destruct r as [e|]; simpl.
  - exists oevs, sevs, sent, []. rewrite app_nil_r, <- !app_assoc.
    split; [done|]. split; [done|]. split; [done|]. split; [by left|].
    intros Hlg. rewrite Hlog2 in Hnone. by destruct (Hnone Hlg) as (_ & _ & ?).
  - exists oevs, sevs, sent, [UpdatePolicyWeights]. rewrite <- !app_assoc.
    split; [done|]. split; [done|]. split; [done|]. split; [by right|].
    intros Hlg. rewrite Hlog2 in Hnone. by destruct (Hnone Hlg) as (-> & -> & _).
Qed.

(** *** Consumed batches *)

Lemma numel_nonneg (data : Data) : 0 ≤ numel data.
Proof. unfold numel. lia. Qed.


Lemma main_loop_consumed (batches : list Data) (i : Z) (s : State) :
  ∃ n : nat,
    (n ≤ length batches)%nat
    ∧ collected_frames (main_loop i batches s).1
      = collected_frames s + frames (take n batches)
    ∧ replay_buffer (main_loop i batches s).1
      = foldl Replay.extend (replay_buffer s) (take n batches)
    ∧ ((main_loop i batches s).2 = None -> n = length batches)
    ∧ (is_Some (main_loop i batches s).2 -> (0 < n)%nat).
Proof.
  revert i s. induction batches as [|data rest IH]; intros i s; simpl.
  - exists 0%nat. simpl. split; [done|]. split; [lia|]. split; [done|].
    split; [done|]. by intros [? ?].
  - destruct (TrainSpec.loop_body_fields draw set_priority optimizer_step
                log_scalar cfg i data s) as (Hcf & _ & Hrb).
    destruct (loop_body i data s) as [s1 [e|]]; simpl in *.
    + exists 1%nat. rewrite firstn_cons, take_0. simpl.
      split; [lia|]. split; [lia|]. split; [done|]. split; [done|]. lia.
    + destruct (IH (i + 1) s1) as (n & Hn & Hcf' & Hrb' & Hnone & Hsome).
      exists (S n). simpl. rewrite Hcf', Hrb', Hcf, Hrb.
      split; [lia|]. split; [lia|]. split; [done|].
      split; [|lia]. intros Hr. by rewrite (Hnone Hr).
Qed.

(** *** The warm-up *)


(** *** Division by zero *)

Lemma main_loop_zero (i : Z) (data : Data) (rest : list Data) (s : State) :
  frames_per_batch cfg = 0 ∨ test_interval cfg = 0 ->
  init_random_frames cfg ≤ collected_frames s + numel data ->
  ∃ s' evs,
    main_loop i (data :: rest) s = (s', Some ZeroDivisionError)
    ∧ collected_frames s' = collected_frames s + numel data
    ∧ trace s' = trace s ++ evs
    ∧ Forall is_opt evs
    ∧ length (snapshots evs) = num_updates cfg.
Proof.
  intros Hzero Htrain. simpl. rewrite loop_body_zero by done.
  destruct (TrainSpec.optimization_frames draw set_priority optimizer_step
              cfg (num_updates cfg) (advance data s)) as (Hcf & _).
  destruct (optimization_events (num_updates cfg) (advance data s))
    as (evs & Htr & Hevs & Hlen).
  eexists _, evs. split; [done|]. rewrite Hcf, Htr. done.
Qed.

(** *** Without a logger *)

Lemma main_loop_no_logger (batches : list Data) (i : Z) (s : State) :
  logger s = None ->
  (main_loop i batches s).2 ≠ Some BackendError
  ∧ ∃ evs, trace (main_loop i batches s).1 = trace s ++ evs
           ∧ Forall (λ e, ¬ is_log e) evs.
Proof.
  revert i s. induction batches as [|data rest IH]; intros i s Hlg; simpl.
  - split; [done|]. exists []. by rewrite app_nil_r.
  - destruct (loop_body_shape i data s)
      as (oevs & sevs & sent & uevs & Htr & Hoevs & Hsevs & Huevs & Hnone).
    destruct (Hnone Hlg) as (-> & Hlg1 & Hexn).
    assert (Forall (λ e : Event, ¬ is_log e) (oevs ++ sevs ++ [] ++ uevs))
      as Hquiet.
    { repeat apply Forall_app_2.
      - eapply Forall_impl; [exact Hoevs|]. by intros [] ? ?.
      - destruct Hsevs as [->| ->]; repeat constructor; by intros [].
      - constructor.
      - destruct Huevs as [->| ->]; repeat constructor; by intros []. }
    destruct (loop_body i data s) as [s1 [e|]]; simpl in *.
    + split; [done|]. eexists. split; [exact Htr|]. exact Hquiet.
    + destruct (IH (i + 1) s1 Hlg1) as (Hexn' & evs' & -> & Hevs').
      split; [done|]. rewrite Htr.
      exists ((oevs ++ sevs ++ [] ++ uevs) ++ evs').
      rewrite <- !app_assoc. split; [done|].
      rewrite !app_assoc. apply Forall_app_2; [|done].
      by rewrite <- !app_assoc.
Qed.

(** *** Frame stamps *)

(** The frame counts that metrics and checkpoints are keyed by, in the
    order of the calls. *)
Definition stamps (tr : list Event) : list Z :=
  omap (λ e, match e with
             | LogScalar _ step => Some step
             | Save collected => Some collected
             | _ => None
             end) tr.

Lemma stamps_app (a b : list Event) : stamps (a ++ b) = stamps a ++ stamps b.
Proof. apply omap_app. Qed.

Lemma stamps_opt (evs : list Event) : Forall is_opt evs -> stamps evs = [].
Proof.
  induction 1 as [|e evs He _ IH]; [done|]. destruct e; simpl in *; done.
Qed.

Lemma stamps_logged (keys : list string) (c : Z) :
  stamps (logged keys c) = replicate (length keys) c.
Proof. induction keys as [|k keys IH]; simpl; [done|]. by f_equal. Qed.

Lemma saved_stamps (tr : list Event) (c : Z) :
  c ∈ saved tr -> c ∈ stamps tr.
Proof.
  unfold saved, stamps. rewrite !list_elem_of_omap.
  intros (e & He & Hc). exists e. split; [done|]. by destruct e.
Qed.

Lemma loop_body_stamps (i : Z) (data : Data) (s : State) :
  ∃ evs, trace (loop_body i data s).1 = trace s ++ evs
         ∧ Forall (λ st, st = collected_frames s + numel data) (stamps evs).
Proof.
  destruct (loop_body_shape i data s)
    as (oevs & sevs & sent & uevs & Htr & Hoevs & Hsevs & Huevs & _).
  eexists. split; [exact Htr|].
  rewrite !stamps_app, (stamps_opt _ Hoevs), stamps_logged. simpl.
  apply Forall_app_2; [|apply Forall_app_2].
  - destruct Hsevs as [->| ->]; by repeat constructor.
  - by apply Forall_replicate.
  - destruct Huevs as [->| ->]; by repeat constructor.
Qed.

Lemma main_loop_stamps (batches : list Data) (i : Z) (s : State) :
  0 ≤ collected_frames s ->
  Forall (λ st, 0 ≤ st ≤ collected_frames s) (stamps (trace s)) ->
  StronglySorted Z.le (stamps (trace s)) ->
  Forall (λ st, 0 ≤ st ≤ collected_frames (main_loop i batches s).1)
    (stamps (trace (main_loop i batches s).1))
  ∧ StronglySorted Z.le (stamps (trace (main_loop i batches s).1)).
Proof.
  revert i s. induction batches as [|data rest IH]; intros i s Hcf Hle Hsort;
    simpl; [done|].
  destruct (loop_body_stamps i data s) as (evs & Htr & Hevs).
  destruct (TrainSpec.loop_body_fields draw set_priority optimizer_step
              log_scalar cfg i data s) as (Hcf1 & _).
  pose proof (numel_nonneg data) as Hn.
  assert (Forall (λ st, 0 ≤ st ≤ collected_frames (loop_body i data s).1)
            (stamps (trace (loop_body i data s).1))
          ∧ StronglySorted Z.le (stamps (trace (loop_body i data s).1)))
    as [Hle1 Hsort1].
  { rewrite Htr, stamps_app, Hcf1. split.
    - apply Forall_app_2.
      + eapply Forall_impl; [exact Hle|]. simpl. lia.
      + eapply Forall_impl; [exact Hevs|]. simpl. lia.
    - apply StronglySorted_app_2; [|done|].
      + intros x1 x2 H1 H2.
        rewrite Forall_forall in Hle, Hevs.
        specialize (Hle _ H1). specialize (Hevs _ H2). simpl in *. lia.
      + clear -Hevs. induction Hevs as [|x l Hx Hl IH]; constructor; [done|].
        eapply Forall_impl; [exact Hl|]. simpl. lia. }
  destruct (loop_body i data s) as [s1 [e|]]; simpl in *; [done|].
  apply IH; [lia|done|done].
Qed.

(** *** A batch under a backend that does not raise *)

Definition logged_if (lg : option Logger) (keys : list string) (c : Z)
  : list Event :=
  match lg with Some _ => logged keys c | None => [] end.

Lemma emit_ok_shape (log_info : list string) (s : State) :
  (∀ l k st, is_Some (log_scalar l k st)) ->
  ∃ lg', emit log_info s
         = (mkState (collected_frames s) (greedy_module s) (replay_buffer s)
              (learner s) (sampler s) lg'
              (trace s ++ logged_if (logger s) log_info (collected_frames s)),
            None)
         ∧ (is_Some lg' ↔ is_Some (logger s)).
Proof.
  intros Hok. unfold Train.emit, logged_if.
  destruct s as [cf g rb l smp [lg|] tr]; simpl.
  - pose proof (@TrainSpec.log_items_ok Params Logger log_scalar log_info lg
                  cf Hok) as Hr.
    destruct (log_items_shape log_info lg cf) as (sent & Hev & _ & Hall & _).
    destruct (log_items lg log_info cf) as [[evs lg'] r].
    simpl in *. subst r. rewrite (Hall eq_refl) in Hev. subst evs.
    exists (Some lg'). split; [done|]. split; by eexists.
  - exists None. by rewrite app_nil_r.
Qed.

Lemma loop_body_ok (i : Z) (data : Data) (s : State) :
  (∀ l k st, is_Some (log_scalar l k st)) ->
  frames_per_batch cfg ≠ 0 -> test_interval cfg ≠ 0 ->
  ∃ s' oevs,
    loop_body i data s = (s', None)
    ∧ collected_frames s' = collected_frames s + numel data
    ∧ (is_Some (logger s') ↔ is_Some (logger s))
    ∧ Forall is_opt oevs
    ∧ length (snapshots oevs) = num_updates cfg
    ∧ trace s'
      = trace s
        ++ (if decide (collected_frames s + numel data
                       < init_random_frames cfg) then [] else oevs)
        ++ (Save <$> TrainSpec.saves_of cfg i
                       (collected_frames s + numel data))
        ++ logged_if (logger s)
             (TrainSpec.batch_log_info cfg
                (collected_frames s + numel data) data)
             (collected_frames s + numel data)
        ++ (if decide (collected_frames s + numel data
                       < init_random_frames cfg)
            then [] else [UpdatePolicyWeights]).
Proof.
  intros Hok Hfpb Hti.
  destruct (optimization_events (num_updates cfg) (advance data s))
    as (oevs & Htr & Hoevs & Hlen).
  destruct (TrainSpec.optimization_frames draw set_priority optimizer_step
              cfg (num_updates cfg) (advance data s))
    as (Hcf & _ & _ & Hlog).
  cbn [advance collected_frames logger trace] in Hcf, Hlog, Htr.
  unfold TrainSpec.saves_of.
  destruct (decide (collected_frames s + numel data
                    < init_random_frames cfg)) as [Hwarm|Htrain].
  - rewrite loop_body_warm by done.
    destruct (emit_ok_shape (TrainSpec.episode_log_info data)
                (advance data s) Hok) as (lg' & -> & Hlg').
    eexists _, oevs. split; [done|]. simpl.
    unfold TrainSpec.batch_log_info. rewrite decide_True by done.
    rewrite app_nil_r. done.
  - rewrite loop_body_train by (done || lia). cbv zeta.
    set (c := collected_frames s + numel data) in *.
    set (s1 := Nat.iter (num_updates cfg) optimization_step (advance data s))
      in *.
    set (s2 := if checkpoint_due cfg i c then record s1 [Save c] else s1).
    assert (trace s2
            = trace s ++ oevs
              ++ (Save <$> (if checkpoint_due cfg i c then [c] else []))
            ∧ collected_frames s2 = c ∧ logger s2 = logger s)
      as (Htr2 & Hcf2 & Hlog2).
    { unfold s2. destruct (checkpoint_due cfg i c); simpl.
      - by rewrite Htr, <- app_assoc.
      - by rewrite Htr, app_nil_r. }
    destruct (emit_ok_shape (TrainSpec.batch_log_info cfg c data) s2 Hok)
      as (lg' & -> & Hlg').
    eexists _, oevs. split; [done|]. simpl.
    rewrite Hcf2, Htr2, Hlog2 in *. rewrite <- !app_assoc.
    done.
Qed.

(** *** Counting optimizer steps and weight refreshes *)

(** The batches that end past the warm-up, for batch sizes [sizes] after
    [collected] frames. *)
Fixpoint training_batches (collected : Z) (sizes : list Z) : nat :=
  match sizes with
  | [] => 0
  | n :: rest =>
      ((if decide (collected + n < init_random_frames cfg)%Z then 0 else 1)
       + training_batches (collected + n)%Z rest)%nat
  end.

Definition is_policy_update (e : Event) : bool :=
  match e with UpdatePolicyWeights => true | _ => false end.

Definition policy_updates (tr : list Event) : nat :=
  length (List.filter is_policy_update tr).

Lemma policy_updates_app (a b : list Event) :
  policy_updates (a ++ b) = (policy_updates a + policy_updates b)%nat.
Proof. unfold policy_updates. by rewrite List.filter_app, length_app. Qed.

Lemma policy_updates_none (evs : list Event) :
  Forall (λ e, is_opt e ∨ is_log e ∨ ∃ c, e = Save c) evs ->
  policy_updates evs = 0%nat.
Proof.
  induction 1 as [|e evs He _ IH]; [done|].
  destruct e; simpl in *; try done.
  destruct He as [[]|[[]|[? [=]]]].
Qed.

Lemma snapshots_none (evs : list Event) :
  Forall (λ e, is_log e ∨ e = UpdatePolicyWeights ∨ ∃ c, e = Save c) evs ->
  snapshots evs = [].
Proof.
  induction 1 as [|e evs He _ IH]; [done|].
  destruct e; simpl in *; try done.
  destruct He as [[]|[[=]|[? [=]]]].
Qed.

Lemma logged_if_log (lg : option Logger) (keys : list string) (c : Z) :
  Forall is_log (logged_if lg keys c).
Proof.
  destruct lg; [|constructor]. simpl. unfold logged.
  apply Forall_fmap, Forall_true. done.
Qed.

Lemma main_loop_counts (batches : list Data) (i : Z) (s : State) :
  (∀ l k st, is_Some (log_scalar l k st)) ->
  frames_per_batch cfg ≠ 0 -> test_interval cfg ≠ 0 ->
  ∃ s', main_loop i batches s = (s', None)
        ∧ length (snapshots (trace s'))
          = (length (snapshots (trace s))
             + num_updates cfg
               * training_batches (collected_frames s) (numel <$> batches))%nat
        ∧ policy_updates (trace s')
          = (policy_updates (trace s)
             + training_batches (collected_frames s) (numel <$> batches))%nat.
Proof.
  intros Hok Hfpb Hti. revert i s.
  induction batches as [|data rest IH]; intros i s; simpl.
  - exists s. split; [done|]. lia.
  - destruct (loop_body_ok i data s Hok Hfpb Hti)
      as (s1 & oevs & -> & Hcf & _ & Hoevs & Hlen & Htr).
    destruct (IH (i + 1) s1) as (s' & -> & Hsnap & Hpol).
    exists s'. split; [done|]. rewrite Hsnap, Hpol, Hcf, Htr.
    rewrite !TrainSpec.snapshots_app, !policy_updates_app, !length_app.
    rewrite (snapshots_none (Save <$> _)), (snapshots_none (logged_if _ _ _)),
      (policy_updates_none (Save <$> _)),
      (policy_updates_none (logged_if _ _ _)).
    + change (list_fmap _ _ numel rest) with (numel <$> rest).
      generalize (training_batches (collected_frames s + numel data)
                    (numel <$> rest)).
      intros T.
      destruct (decide (collected_frames s + numel data
                        < init_random_frames cfg)).
      * change (policy_updates []) with 0%nat. simpl. split; lia.
      * rewrite Hlen, (policy_updates_none oevs).
        -- change (policy_updates [UpdatePolicyWeights]) with 1%nat.
           change (length (snapshots [UpdatePolicyWeights])) with 0%nat.
           simpl. split; lia.
        -- eapply Forall_impl; [exact Hoevs|]. by left.
    + eapply Forall_impl; [apply logged_if_log|]. simpl. tauto.
    + apply Forall_fmap, Forall_true. intros c. simpl. right. right. by eexists.
    + eapply Forall_impl; [apply logged_if_log|]. simpl. tauto.
    + apply Forall_fmap, Forall_true. intros c. simpl. right. right. by eexists.
Qed.

(** *** Episode metrics *)

Lemma episode_key_logged (key : string) (c : Z) (data : Data) :
  key ∈ ["train/episode_reward"; "train/episode_length";
         "train/episode_weed_ratio"] ->
  key ∈ TrainSpec.batch_log_info cfg c data ↔ existsb done data = true.
Proof.
  intros Hkey. unfold TrainSpec.batch_log_info, TrainSpec.episode_log_info.
  rewrite !elem_of_cons, elem_of_nil in Hkey.
  destruct Hkey as [->|[->|[->|[]]]];
    destruct (existsb done data), (use_value_rescale cfg); case_decide;
    (split; intros Hin;
     [ first [ done
             | apply (bool_decide_pack _) in Hin; by vm_compute in Hin ]
     | first [ done
             | apply (bool_decide_unpack _); by vm_compute ] ]).
Qed.

Lemma loop_body_episode (i : Z) (data : Data) (s : State) (lg : Logger)
    (key : string) :
  (∀ l k st, is_Some (log_scalar l k st)) ->
  frames_per_batch cfg ≠ 0 -> test_interval cfg ≠ 0 ->
  logger s = Some lg ->
  key ∈ ["train/episode_reward"; "train/episode_length";
         "train/episode_weed_ratio"] ->
  ∃ s' evs,
    loop_body i data s = (s', None)
    ∧ trace s' = trace s ++ evs
    ∧ (LogScalar key (collected_frames s + numel data) ∈ evs
       ↔ existsb done data = true).
Proof.
  intros Hok Hfpb Hti Hlg Hkey.
  destruct (loop_body_ok i data s Hok Hfpb Hti)
    as (s1 & oevs & -> & Hcf & _ & Hoevs & Hlen & Htr).
  eexists _, _. split; [done|]. split; [exact Htr|].
  rewrite Hlg. simpl.
  rewrite <- (episode_key_logged key (collected_frames s + numel data) data)
    by done.
  rewrite !elem_of_app. unfold logged. rewrite !list_elem_of_fmap.
  split.
  - intros [Hin|[(c & [=] & _)|[(k & [= ->] & Hk)|Hin]]]; [|done|].
    + case_decide; [by apply elem_of_nil in Hin|].
      rewrite Forall_forall in Hoevs. by destruct (Hoevs _ Hin).
    + case_decide; [by apply elem_of_nil in Hin|].
      apply list_elem_of_singleton in Hin. done.
  - intros Hk. right. right. left. by exists key.
Qed.

(** *** The last checkpoint *)

Lemma frames_snoc (front : list Data) (b : Data) :
  frames (front ++ [b]) = frames front + numel b.
Proof.
  induction front as [|d front IH]; simpl; [lia|]. rewrite IH. lia.
Qed.

Lemma schedule_snoc (front : list Data) (b : Data) (i c : Z) :
  TrainSpec.schedule cfg i c (numel <$> (front ++ [b]))
  = TrainSpec.schedule cfg i c (numel <$> front)
    ++ TrainSpec.saves_of cfg (i + Z.of_nat (length front))
         (c + frames front + numel b).
Proof.
  revert i c. induction front as [|d front IH]; intros i c.
  - simpl. rewrite app_nil_r. f_equal; lia.
  - cbn [app fmap list_fmap TrainSpec.schedule frames foldr length].
    change (list_fmap _ _ numel ?l) with (numel <$> l).
    rewrite IH, <- app_assoc. do 3 f_equal; [lia|].
    fold (frames front). lia.
Qed.

Lemma main_loop_final (front : list Data) (b : Data) (i : Z) (s : State) :
  (∀ l k st, is_Some (log_scalar l k st)) ->
  frames_per_batch cfg ≠ 0 -> test_interval cfg ≠ 0 ->
  total_frames cfg ≤ collected_frames s + frames (front ++ [b]) ->
  init_random_frames cfg ≤ collected_frames s + frames (front ++ [b]) ->
  ∃ s', main_loop i (front ++ [b]) s = (s', None)
        ∧ collected_frames s' = collected_frames s + frames (front ++ [b])
        ∧ last (saved (trace s'))
          = Some (collected_frames s + frames (front ++ [b])).
Proof.
  intros Hok Hfpb Hti Htotal Hwarm.
  destruct (TrainSpec.main_loop_saved draw set_priority optimizer_step
              log_scalar cfg (front ++ [b]) i s Hok Hfpb Hti)
    as (s' & Hrun & Hsaved).
  destruct (main_loop_consumed (front ++ [b]) i s)
    as (n & _ & Hcf & _ & Hnone & _).
  rewrite Hrun in Hcf, Hnone. simpl in Hcf, Hnone.
  rewrite (Hnone eq_refl), firstn_all in Hcf.
  exists s'. split; [done|]. split; [done|].
  rewrite Hsaved, schedule_snoc. rewrite frames_snoc in *.
  unfold TrainSpec.saves_of, checkpoint_due.
  rewrite decide_False by lia.
  rewrite (bool_decide_eq_true_2 (total_frames cfg ≤ _)) by lia.
  rewrite orb_true_r, !app_assoc, last_snoc. f_equal. lia.
Qed.

End Main.

(** *** When a checkpoint is due *)

Lemma floor_crossing (a b t : Z) :
  0 < t -> a / t < b / t ↔ ∃ m, a < m * t ∧ m * t ≤ b.
Proof.
  intros Ht. split.
  - intros Hlt. exists (b / t).
    pose proof (Z.mul_div_le b t Ht).
    pose proof (Z.div_mod a t ltac:(lia)).
    pose proof (Z.mod_pos_bound a t Ht). nia.
  - intros (m & Ham & Hmb).
    assert (a / t < m) by (apply Z.div_lt_upper_bound; lia).
    assert (m ≤ b / t) by (apply Z.div_le_lower_bound; lia).
    lia.
Qed.

(** X12: for a positive test interval, a checkpoint is due at the batch
    with index i exactly when i > 0 and a multiple of [test_interval] lies
    in the window from (i-1) * frames_per_batch (exclusive) to
    i * frames_per_batch (inclusive), or when the frame budget is
    reached. *)
Theorem checkpoint_due_iff (cfg : Config) (i collected : Z) :
  0 < test_interval cfg ->
  checkpoint_due cfg i collected = true
  ↔ (0 < i ∧ ∃ m, (i - 1) * frames_per_batch cfg < m * test_interval cfg
                  ∧ m * test_interval cfg ≤ i * frames_per_batch cfg)
    ∨ total_frames cfg ≤ collected.
Proof.
  intros Hti. unfold checkpoint_due.
  rewrite orb_true_iff, andb_true_iff, !bool_decide_eq_true.
  by rewrite (floor_crossing _ _ _ Hti).
Qed.

(** Small configurations for the examples: batches of two frames, a test
    interval of two frames and a budget of four. *)
Definition small_cfg : Config :=
  {| annealing_frames := 10; eps_start := 1%Qc; eps_end := Q2Qc (1 # 10);
     frames_per_batch := 2; total_frames := 4; init_random_frames := 0;
     buffer_size := 4; batch_size := 2; nstep := 1; gamma := Q2Qc (99 # 100);
     use_value_rescale := true; hard_update_freq := 3;
     test_interval := 2; num_updates := 2 |}.

Definition with_warm_up (cfg : Config) (n : Z) : Config :=
  mkConfig (annealing_frames cfg) (eps_start cfg) (eps_end cfg)
    (frames_per_batch cfg) (total_frames cfg) n (buffer_size cfg)
    (batch_size cfg) (nstep cfg) (gamma cfg) (use_value_rescale cfg)
    (hard_update_freq cfg) (test_interval cfg) (num_updates cfg).

Definition with_test_interval (cfg : Config) (n : Z) : Config :=
  mkConfig (annealing_frames cfg) (eps_start cfg) (eps_end cfg)
    (frames_per_batch cfg) (total_frames cfg) (init_random_frames cfg)
    (buffer_size cfg) (batch_size cfg) (nstep cfg) (gamma cfg)
    (use_value_rescale cfg) (hard_update_freq cfg) n (num_updates cfg).

Definition finished : Transition unit := mkTransition tt 0 1%Qc tt true.

Definition two_batches : list (@Data unit) :=
  [[Demo.frame; Demo.frame]; [Demo.frame; finished]].

Lemma checkpoint_due_iff_witness :
  checkpoint_due small_cfg 1 4 = true
  ↔ (0 < 1 ∧ ∃ m, (1 - 1) * frames_per_batch small_cfg
                  < m * test_interval small_cfg
                  ∧ m * test_interval small_cfg
                    ≤ 1 * frames_per_batch small_cfg)
    ∨ total_frames small_cfg ≤ 4.
Proof. apply (checkpoint_due_iff small_cfg 1 4). reflexivity. Defined.

Section Runs.
Context {Obs Params Sampler Logger : Type}.
Variable draw : Sampler -> ReplayBuffer Obs -> Z -> list nat * Sampler.
Variable set_priority : Sampler -> list nat -> Learner Params -> Sampler.
Variable optimizer_step :
  Learner Params -> ReplayBuffer Obs -> list nat -> Params.
Variable log_scalar : Logger -> string -> Z -> option Logger.
Variable cfg : Config.

Local Abbreviation State := (@State Obs Params Sampler Logger).
Local Abbreviation Data := (@Train.Data Obs).
Local Abbreviation loop_body :=
  (Train.loop_body draw set_priority optimizer_step log_scalar cfg).
Local Abbreviation main_loop :=
  (Train.main_loop draw set_priority optimizer_step log_scalar cfg).
Local Abbreviation main :=
  (Train.main draw set_priority optimizer_step log_scalar cfg).

(** X5: a run consumes the batches in order.  When it ends, by itself or
    by an exception, a prefix of the batches has been consumed: the frame
    counter is the number of their frames and all of them have been handed
    to the replay buffer, also the batch whose body raised.  Without an
    exception the prefix is the whole list. *)
Theorem consumed_batches (model : Params) (rng : Sampler)
    (lg : option Logger) (batches : list Data) :
  ∃ n : nat,
    (n ≤ length batches)%nat
    ∧ collected_frames (main model rng lg batches).1
      = frames (take n batches)
    ∧ replay_buffer (main model rng lg batches).1
      = foldl Replay.extend
          (replay_buffer (@setup Obs Params Sampler Logger cfg model rng lg))
          (take n batches)
    ∧ ((main model rng lg batches).2 = None -> n = length batches)
    ∧ (is_Some (main model rng lg batches).2 -> (0 < n)%nat).
Proof.
  unfold Train.main.
  destruct (main_loop_consumed draw set_priority optimizer_step log_scalar
              cfg batches 0 (setup cfg model rng lg))
    as (n & Hn & Hcf & Hrb & Hnone & Hsome).
  exists n. by rewrite Hcf, Hrb.
Qed.


(** X7: with [frames_per_batch] or [test_interval] equal to 0, the first
    batch that ends past the warm-up raises ZeroDivisionError, whatever the
    logger: its optimization steps have been made, and nothing is saved or
    logged for it, the collector's weights are not refreshed and the
    remaining batches are not consumed. *)
Theorem zero_division (i : Z) (data : Data) (rest : list Data) (s : State) :
  frames_per_batch cfg = 0 ∨ test_interval cfg = 0 ->
  init_random_frames cfg ≤ collected_frames s + numel data ->
  ∃ s' evs,
    main_loop i (data :: rest) s = (s', Some ZeroDivisionError)
    ∧ collected_frames s' = collected_frames s + numel data
    ∧ trace s' = trace s ++ evs
    ∧ Forall (@TrainSpec.is_opt Params) evs
    ∧ length (snapshots evs) = num_updates cfg.
Proof. apply main_loop_zero. Qed.

(** X8: without a logger ([cfg.logger.backend] empty) no [log_scalar] call
    is made and a run never ends with a backend error. *)
Theorem no_logger_no_metrics (model : Params) (rng : Sampler)
    (batches : list Data) :
  (main model rng None batches).2 ≠ Some BackendError
  ∧ Forall (λ e, ¬ @TrainSpec.is_log Params e)
      (trace (main model rng None batches).1).
Proof.
  unfold Train.main.
  destruct (main_loop_no_logger draw set_priority optimizer_step log_scalar
              cfg batches 0 (setup cfg model rng None) eq_refl)
    as (Hexn & evs & -> & Hevs).
  done.
Qed.

(** X9: metrics and checkpoints are keyed by frame counts that never
    decrease along a run, and none is negative or above the frame counter
    the run ends with. *)
Theorem frame_stamps_sorted (model : Params) (rng : Sampler)
    (lg : option Logger) (batches : list Data) :
  StronglySorted Z.le (stamps (trace (main model rng lg batches).1))
  ∧ Forall (λ st, 0 ≤ st ≤ collected_frames (main model rng lg batches).1)
      (stamps (trace (main model rng lg batches).1)).
Proof.
  unfold Train.main.
  destruct (main_loop_stamps draw set_priority optimizer_step log_scalar cfg
              batches 0 (setup cfg model rng lg))
    as (Hle & Hsort); try done; by constructor.
Qed.

(** X10: under a backend that does not raise and with non-zero
    [frames_per_batch] and [test_interval], a run makes [num_updates]
    optimizer steps and one refresh of the collector's weights for every
    batch that ends past the warm-up, and none for the others. *)
Theorem optimizer_steps_per_batch (model : Params) (rng : Sampler)
    (lg : option Logger) (batches : list Data) :
  (∀ l k st, is_Some (log_scalar l k st)) ->
  frames_per_batch cfg ≠ 0 -> test_interval cfg ≠ 0 ->
  ∃ s', main model rng lg batches = (s', None)
        ∧ length (snapshots (trace s'))
          = (num_updates cfg * training_batches cfg 0 (numel <$> batches))%nat
        ∧ policy_updates (trace s')
          = training_batches cfg 0 (numel <$> batches).
Proof.
  intros Hok Hfpb Hti. unfold Train.main.
  destruct (main_loop_counts draw set_priority optimizer_step log_scalar cfg
              batches 0 (setup cfg model rng lg) Hok Hfpb Hti)
    as (s' & -> & Hsnap & Hpol).
  exists s'. split; [done|]. rewrite Hsnap, Hpol. done.
Qed.

(** X11: with a logger whose backend does not raise, a batch logs the
    episode metrics (reward, length, weed ratio), at the frame count it
    reaches, exactly when one of its frames ends an episode. *)
Theorem episode_metrics (i : Z) (data : Data) (s : State) (lg : Logger)
    (key : string) :
  (∀ l k st, is_Some (log_scalar l k st)) ->
  frames_per_batch cfg ≠ 0 -> test_interval cfg ≠ 0 ->
  logger s = Some lg ->
  key ∈ ["train/episode_reward"; "train/episode_length";
         "train/episode_weed_ratio"] ->
  ∃ s' evs,
    loop_body i data s = (s', None)
    ∧ trace s' = trace s ++ evs
    ∧ (LogScalar key (collected_frames s + numel data) ∈ evs
       ↔ existsb done data = true).
Proof. apply loop_body_episode. Qed.

(** X13: under a backend that does not raise and with non-zero
    [frames_per_batch] and [test_interval], a run whose batches reach the
    frame budget (and the end of the warm-up) ends with a checkpoint of the
    last batch: the last file saved is the one of the final frame count. *)
Theorem final_checkpoint (model : Params) (rng : Sampler)
    (lg : option Logger) (front : list Data) (b : Data) :
  (∀ l k st, is_Some (log_scalar l k st)) ->
  frames_per_batch cfg ≠ 0 -> test_interval cfg ≠ 0 ->
  total_frames cfg ≤ frames (front ++ [b]) ->
  init_random_frames cfg ≤ frames (front ++ [b]) ->
  ∃ s', main model rng lg (front ++ [b]) = (s', None)
        ∧ collected_frames s' = frames (front ++ [b])
        ∧ last (saved (trace s')) = Some (frames (front ++ [b])).
Proof.
  intros Hok Hfpb Hti Htotal Hwarm. unfold Train.main.
  destruct (main_loop_final draw set_priority optimizer_step log_scalar cfg
              front b 0 (setup cfg model rng lg) Hok Hfpb Hti)
    as (s' & -> & Hcf & Hlast); [simpl; lia..|].
  exists s'. simpl in *. by rewrite Hcf, Hlast.
Qed.

(** X14: two checkpoints of a run are written to the same file exactly when
    their frame counts have the same number of whole thousands; a later
    checkpoint within the same thousand frames overwrites the earlier
    one. *)
Theorem checkpoint_file_collision (model : Params) (rng : Sampler)
    (lg : option Logger) (batches : list Data) (base_dir ckpt_dir : string)
    (a b : Z) :
  a ∈ saved (trace (main model rng lg batches).1) ->
  b ∈ saved (trace (main model rng lg batches).1) ->
  Checkpoint.checkpoint_file base_dir ckpt_dir a
  = Checkpoint.checkpoint_file base_dir ckpt_dir b
  ↔ a / 1000 = b / 1000.
Proof.
  intros Ha Hb. apply CheckpointSpec.checkpoint_file_eq.
  - apply saved_stamps in Ha. revert Ha. unfold Train.main.
    destruct (main_loop_stamps draw set_priority optimizer_step log_scalar
                cfg batches 0 (setup cfg model rng lg))
      as (Hle & _); try done; try by constructor.
    rewrite Forall_forall in Hle. intros Ha. by destruct (Hle _ Ha).
  - apply saved_stamps in Hb. revert Hb. unfold Train.main.
    destruct (main_loop_stamps draw set_priority optimizer_step log_scalar
                cfg batches 0 (setup cfg model rng lg))
      as (Hle & _); try done; try by constructor.
    rewrite Forall_forall in Hle. intros Hb. by destruct (Hle _ Hb).
Qed.

End Runs.

Lemma demo_backend_ok (l : list (string * Z)) (k : string) (st : Z) :
  is_Some (Demo.log_scalar l k st).
Proof. by eexists. Qed.


Lemma zero_division_witness :
  ∃ s' evs,
    main_loop Demo.draw Demo.set_priority Demo.optimizer_step
      Demo.log_scalar (with_test_interval small_cfg 0) 0 two_batches
      (setup (with_test_interval small_cfg 0) 0%nat 0%nat (Some []))
    = (s', Some ZeroDivisionError)
    ∧ collected_frames s' = 0 + 2
    ∧ trace s' = [] ++ evs
    ∧ Forall (@TrainSpec.is_opt nat) evs
    ∧ length (snapshots evs) = 2%nat.
Proof.
  apply (zero_division Demo.draw Demo.set_priority Demo.optimizer_step
           Demo.log_scalar (with_test_interval small_cfg 0) 0
           [Demo.frame; Demo.frame] [[Demo.frame; finished]]
           (setup (with_test_interval small_cfg 0) 0%nat 0%nat (Some []))).
  - right. reflexivity.
  - by vm_compute.
Defined.

Lemma optimizer_steps_per_batch_witness :
  ∃ s', main Demo.draw Demo.set_priority Demo.optimizer_step Demo.log_scalar
          (with_warm_up small_cfg 3) 0%nat 0%nat (Some []) two_batches
        = (s', None)
        ∧ length (snapshots (trace s'))
          = (num_updates (with_warm_up small_cfg 3)
             * training_batches (with_warm_up small_cfg 3) 0
                 (numel <$> two_batches))%nat
        ∧ policy_updates (trace s')
          = training_batches (with_warm_up small_cfg 3) 0
              (numel <$> two_batches).
Proof.
  apply (optimizer_steps_per_batch Demo.draw Demo.set_priority
           Demo.optimizer_step Demo.log_scalar (with_warm_up small_cfg 3)
           0%nat 0%nat (Some []) two_batches).
  - exact demo_backend_ok.
  - by vm_compute.
  - by vm_compute.
Defined.

Lemma episode_metrics_witness :
  ∃ s' evs,
    loop_body Demo.draw Demo.set_priority Demo.optimizer_step Demo.log_scalar
      small_cfg 0 [Demo.frame; finished]
      (setup small_cfg 0%nat 0%nat (Some []))
    = (s', None)
    ∧ trace s' = [] ++ evs
    ∧ (LogScalar "train/episode_reward" (0 + 2) ∈ evs
       ↔ existsb done [Demo.frame; finished] = true).
Proof.
  apply (episode_metrics Demo.draw Demo.set_priority Demo.optimizer_step
           Demo.log_scalar small_cfg 0 [Demo.frame; finished]
           (setup small_cfg 0%nat 0%nat (Some [])) []
           "train/episode_reward").
  - exact demo_backend_ok.
  - by vm_compute.
  - by vm_compute.
  - reflexivity.
  - apply list_elem_of_here.
Defined.

Lemma final_checkpoint_witness :
  ∃ s', main Demo.draw Demo.set_priority Demo.optimizer_step Demo.log_scalar
          small_cfg 0%nat 0%nat (Some [])
          ([[Demo.frame; Demo.frame]] ++ [[Demo.frame; finished]])
        = (s', None)
        ∧ collected_frames s'
          = frames ([[Demo.frame; Demo.frame]] ++ [[Demo.frame; finished]])
        ∧ last (saved (trace s'))
          = Some (frames ([[Demo.frame; Demo.frame]]
                          ++ [[Demo.frame; finished]])).
Proof.
  apply (final_checkpoint Demo.draw Demo.set_priority Demo.optimizer_step
           Demo.log_scalar small_cfg 0%nat 0%nat (Some [])
           [[Demo.frame; Demo.frame]] [Demo.frame; finished]).
  - exact demo_backend_ok.
  - by vm_compute.
  - by vm_compute.
  - by vm_compute.
  - by vm_compute.
Defined.

Lemma checkpoint_file_collision_witness :
  Checkpoint.checkpoint_file "/home/run" "240101_120000" 3000
  = Checkpoint.checkpoint_file "/home/run" "240101_120000" 5000
  ↔ 3000 / 1000 = 5000 / 1000.
Proof.
  assert (saved (trace (main Demo.draw Demo.set_priority Demo.optimizer_step
                          Demo.log_scalar Demo.cfg 0%nat 0%nat (Some [])
                          Demo.batches).1)
          = [3000; 5000; 7000; 9000; 10000]) as E
    by (vm_compute; reflexivity).
  apply (checkpoint_file_collision Demo.draw Demo.set_priority
           Demo.optimizer_step Demo.log_scalar Demo.cfg 0%nat 0%nat
           (Some []) Demo.batches "/home/run" "240101_120000" 3000 5000).
  - rewrite E. apply list_elem_of_here.
  - rewrite E. apply list_elem_of_further, list_elem_of_here.
Defined.

End TrainMore.
